(** * OneDriveClient: credential lifecycle and authenticated dispatch

    A shallow embedding of [onedrive_api.py].  The client is a record of
    its instance attributes; the three effects of the code (reading the
    clock, posting to the identity provider, sending a request to the
    Graph API) are answered by an environment of oracles and recorded in
    a trace.  Exceptions are values: a raised exception ends the call and
    keeps every attribute assignment made before it. *)

From stdpp Require Import gmap strings list pretty proof_irrel.
From Stdlib Require Import ZArith Lia Ascii SpecFloat.

Set Warnings "-register-all".
Local Open Scope string_scope.
Local Open Scope list_scope.
Local Open Scope Z_scope.

(** ** Values *)

(** Python values as [response.json()] yields them.  A [float] is an
    IEEE binary64 number in the Standard Library's specification of
    floating point: a signed zero, a signed infinity, NaN, or a sign, a
    mantissa and a binary exponent (the decoder also accepts [NaN],
    [Infinity] and [-Infinity]).  A decoded object is an association
    list in which the first binding of a key is the one the dict
    holds. *)
Inductive pyval : Type :=
| PNone
| PBool (b : bool)
| PInt (n : Z)
| PFloat (x : spec_float)
| PStr (s : string)
| PList (items : list pyval)
| PDict (entries : list (string * pyval)).

(** Truth value of an object, as [not x] and [if x:] test it. *)
Definition truthy (v : pyval) : bool :=
  match v with
  | PNone => false
  | PBool b => b
  | PInt n => negb (n =? 0)
  | PFloat x => match x with S754_zero _ => false | _ => true end
  | PStr s => negb (String.eqb s "")
  | PList items => match items with [] => false | _ => true end
  | PDict entries => match entries with [] => false | _ => true end
  end.

Fixpoint assoc (k : string) (entries : list (string * pyval)) : option pyval :=
  match entries with
  | [] => None
  | (k', v) :: rest => if String.eqb k k' then Some v else assoc k rest
  end.

(** ** Responses and exceptions *)

(** A [requests.Response]: [json_body] is what [response.json()] returns,
    [None] when the body is not JSON. *)
Record Response : Type := mkResponse {
  status_code : Z;
  content : string;
  json_body : option pyval
}.

Inductive exn : Type :=
| HTTPError (response : Response)
| RequestException (msg : string)
| JSONDecodeError
| KeyError (key : string)
| TypeError
| ValueError
| AttributeError
| OverflowError.

Inductive result (A : Type) : Type :=
| Ok (a : A)
| Raise (e : exn).
Arguments Ok {A} a.
Arguments Raise {A} e.

(** ** Time *)

(** A naive [datetime] is its count of microseconds since
    0001-01-01T00:00:00; the type ends at 9999-12-31T23:59:59.999999. *)
Definition DT_MAX : Z := 3652059 * 86400 * 1000000 - 1.

Definition in_range (z : Z) : bool := (0 <=? z) && (z <=? DT_MAX).

Record datetime : Type := Datetime {
  micros : Z;
  micros_range : Is_true (in_range micros)
}.

(** Arithmetic that leaves the calendar raises [OverflowError]. *)
Definition datetime_of (z : Z) : result datetime :=
  match decide (Is_true (in_range z)) with
  | left H => Ok (Datetime z H)
  | right _ => Raise OverflowError
  end.

(** A [timedelta], in microseconds. *)
Definition timedelta := Z.

Definition MAX_DELTA_DAYS : Z := 999999999.

Definition signed (s : bool) (m : Z) : Z := if s then - m else m.

(** [num / 2 ^ k] rounded to the nearest integer, a tie going to the
    even neighbour. *)
Definition round_half_even (num k : Z) : Z :=
  let q := num `div` 2 ^ k in
  match 2 * (num `mod` 2 ^ k) ?= 2 ^ k with
  | Lt => q
  | Gt => q + 1
  | Eq => if Z.even q then q else q + 1
  end.

(** The microseconds of a float count of seconds, as the constructor of
    [timedelta] accumulates them.  The float is split into its integral
    and fractional parts; converting the integral part to an integer
    raises [ValueError] on NaN and [OverflowError] on an infinity, and is
    exact otherwise.  A nonzero fractional part is multiplied by [1e6] in
    double precision ([binary_normalize 53 1024] rounds the exact
    product), and what is left below one microsecond is rounded half to
    even. *)
Definition float_micros (x : spec_float) : result Z :=
  match x with
  | S754_nan => Raise ValueError
  | S754_infinity _ => Raise OverflowError
  | S754_zero _ => Ok 0
  | S754_finite s m e =>
      if 0 <=? e then Ok (signed s (Z.pos m * 2 ^ e) * 1000000)
      else
        let whole := signed s (Z.pos m `div` 2 ^ (- e)) in
        let rest := Z.pos m `mod` 2 ^ (- e) in
        if rest =? 0 then Ok (whole * 1000000)
        else
          match binary_normalize 53 1024 (signed s (1000000 * rest)) e false with
          | S754_finite s' m' e' =>
              if 0 <=? e'
              then Ok (whole * 1000000 + signed s' (Z.pos m' * 2 ^ e'))
              else Ok (round_half_even
                         (whole * 1000000 * 2 ^ (- e') + signed s' (Z.pos m'))
                         (- e'))
          | S754_zero _ => Ok (whole * 1000000)
          | S754_infinity _ => Raise OverflowError
          | S754_nan => Raise ValueError
          end
  end.

(** [timedelta(seconds=v)]: integers (and booleans, which are integers)
    and floats are accepted when the day count fits, [OverflowError]
    otherwise; a float that is NaN is a [ValueError]; anything else
    decoded from JSON is a [TypeError]. *)
Definition timedelta_seconds (v : pyval) : result timedelta :=
  let of_int (n : Z) :=
    if (- MAX_DELTA_DAYS <=? n `div` 86400) && (n `div` 86400 <=? MAX_DELTA_DAYS)
    then Ok (n * 1000000) else Raise OverflowError in
  match v with
  | PInt n => of_int n
  | PBool b => of_int (if b then 1 else 0)
  | PFloat x =>
      match float_micros x with
      | Ok us =>
          if (- MAX_DELTA_DAYS <=? us `div` 86400000000)
             && (us `div` 86400000000 <=? MAX_DELTA_DAYS)
          then Ok us else Raise OverflowError
      | Raise e => Raise e
      end
  | _ => Raise TypeError
  end.

(** [timedelta(minutes=5)] *)
Definition SKEW : timedelta := 5 * 60 * 1000000.

Definition dt_add (t : datetime) (d : timedelta) : result datetime :=
  datetime_of (micros t + d).

Definition dt_sub (t : datetime) (d : timedelta) : result datetime :=
  datetime_of (micros t - d).

(** ** Requests, events and the environment *)

Record TokenRequest : Type := mkTokenRequest {
  token_url : string;
  token_data : gmap string string
}.

(** The arguments of one [requests.request] call. *)
Record Request : Type := mkRequest {
  req_method : string;
  req_url : string;
  req_headers : gmap string string;
  req_options : gmap string pyval
}.

(** The keyword arguments of [_make_request]: the optional [headers]
    entry (a header dict when given) and the other transport options,
    which are options [requests.request] takes besides its method, URL
    and headers. *)
Record Kwargs : Type := mkKwargs {
  kw_headers : option (gmap string string);
  kw_options : gmap string pyval
}.

Definition no_kwargs : Kwargs := mkKwargs None ∅.

Inductive event : Type :=
| EvPost (q : TokenRequest)
| EvRequest (q : Request).

(** What the transport does with a call: a response, or an exception of
    its own (connection error, timeout). *)
Inductive reply : Type :=
| Responded (r : Response)
| Failed (msg : string).

(** The world outside the client.  [clock k] is the k-th value returned
    by [datetime.utcnow()], [idp k] answers the k-th [requests.post] and
    [api k] the k-th [requests.request]; [py_repr] is [str()] on decoded
    floats, lists and dicts. *)
Record Env : Type := mkEnv {
  clock : nat → datetime;
  idp : nat → TokenRequest → reply;
  api : nat → Request → reply;
  py_repr : pyval → string
}.

(** ** The client and the state of a run *)

Record OneDriveClient : Type := mkClient {
  tenant_id : string;
  client_id : string;
  client_secret : string;
  user_email : string;
  _access_token : pyval;
  _token_expiry : option datetime
}.

Record St : Type := mkSt {
  self : OneDriveClient;
  ticks : nat;
  trace : list event
}.

Definition is_post (e : event) : bool :=
  match e with EvPost _ => true | EvRequest _ => false end.

Definition is_request (e : event) : bool :=
  match e with EvPost _ => false | EvRequest _ => true end.

Definition n_posts (evs : list event) : nat := length (filter is_post evs).
Definition n_requests (evs : list event) : nat := length (filter is_request evs).

(** ** The monad of a call: state and exceptions *)

Definition M (A : Type) : Type := St → result A * St.

Definition ret {A} (a : A) : M A := λ s, (Ok a, s).
Definition raise {A} (e : exn) : M A := λ s, (Raise e, s).
Definition bind {A B} (m : M A) (k : A → M B) : M B :=
  λ s, match m s with
       | (Ok a, s') => k a s'
       | (Raise e, s') => (Raise e, s')
       end.
Definition lift {A} (r : result A) : M A := λ s, (r, s).

Notation "'let!' x ':=' m 'in' k" := (bind m (λ x, k))
  (at level 10, x name, m at level 100, k at level 200).
Notation "'do!' m 'in' k" := (bind m (λ _, k))
  (at level 10, m at level 100, k at level 200).

Definition get_self : M OneDriveClient := λ s, (Ok (self s), s).

(** [self._access_token = v] and [self._token_expiry = t] *)
Definition with_access_token (c : OneDriveClient) (v : pyval) : OneDriveClient :=
  mkClient (tenant_id c) (client_id c) (client_secret c) (user_email c)
           v (_token_expiry c).

Definition with_token_expiry (c : OneDriveClient) (t : datetime) : OneDriveClient :=
  mkClient (tenant_id c) (client_id c) (client_secret c) (user_email c)
           (_access_token c) (Some t).

Definition set_access_token (v : pyval) : M unit := λ s,
  (Ok tt, mkSt (with_access_token (self s) v) (ticks s) (trace s)).

Definition set_token_expiry (t : datetime) : M unit := λ s,
  (Ok tt, mkSt (with_token_expiry (self s) t) (ticks s) (trace s)).

(** [datetime.utcnow()] *)
Definition utcnow (env : Env) : M datetime := λ s,
  (Ok (clock env (ticks s)), mkSt (self s) (S (ticks s)) (trace s)).

Definition of_reply (r : reply) : result Response :=
  match r with
  | Responded r => Ok r
  | Failed msg => Raise (RequestException msg)
  end.

(** [requests.post(url, data=data)] *)
Definition requests_post (env : Env) (q : TokenRequest) : M Response := λ s,
  (of_reply (idp env (n_posts (trace s)) q),
   mkSt (self s) (ticks s) (trace s ++ [EvPost q])).

(** [requests.request(method, url, headers=headers, **kwargs)] *)
Definition requests_request (env : Env) (q : Request) : M Response := λ s,
  (of_reply (api env (n_requests (trace s)) q),
   mkSt (self s) (ticks s) (trace s ++ [EvRequest q])).

(** [response.raise_for_status()] raises on client and server errors. *)
Definition is_error_status (code : Z) : bool := (400 <=? code) && (code <? 600).

Definition raise_for_status (r : Response) : M unit :=
  if is_error_status (status_code r) then raise (HTTPError r) else ret tt.

(** [response.json()] *)
Definition json (r : Response) : M pyval :=
  match json_body r with
  | Some v => ret v
  | None => raise JSONDecodeError
  end.

(** [v[key]] for a string key: only a dict can be indexed that way. *)
Definition subscript (v : pyval) (key : string) : M pyval :=
  match v with
  | PDict entries =>
      match assoc key entries with
      | Some x => ret x
      | None => raise (KeyError key)
      end
  | _ => raise TypeError
  end.

(** [v.get(key, default)]: only a dict has the method. *)
Definition py_get (v : pyval) (key : string) (default : pyval) : M pyval :=
  match v with
  | PDict entries =>
      match assoc key entries with
      | Some x => ret x
      | None => ret default
      end
  | _ => raise AttributeError
  end.

(** [str(v)], as an f-string renders a value. *)
Definition py_str (env : Env) (v : pyval) : string :=
  match v with
  | PNone => "None"
  | PBool true => "True"
  | PBool false => "False"
  | PInt n => pretty n
  | PStr s => s
  | _ => py_repr env v
  end.

(** ** OneDriveClient *)

Definition GRAPH_URL : string := "https://graph.microsoft.com/v1.0".

(** [TOKEN_URL.format(tenant=t)] *)
Definition TOKEN_URL (tenant : string) : string :=
  "https://login.microsoftonline.com/" +:+ tenant +:+ "/oauth2/v2.0/token".

(** [__init__] *)
Definition __init__ (tenant client secret email : string) : OneDriveClient :=
  mkClient tenant client secret email PNone None.

Definition token_request (c : OneDriveClient) : TokenRequest :=
  mkTokenRequest (TOKEN_URL (tenant_id c))
    (<["client_id" := client_id c]>
     (<["client_secret" := client_secret c]>
      (<["scope" := "https://graph.microsoft.com/.default"]>
       (<["grant_type" := "client_credentials"]> ∅)))).

(** [_is_token_expired] *)
Definition _is_token_expired (env : Env) : M bool :=
  let! c := get_self in
  if negb (truthy (_access_token c)) then ret true
  else
    match _token_expiry c with
    | None => ret true
    | Some expiry =>
        let! now := utcnow env in
        let! limit := lift (dt_sub expiry SKEW) in
        ret (micros limit <=? micros now)
    end.

(** [_refresh_token] *)
Definition _refresh_token (env : Env) : M unit :=
  let! c := get_self in
  let! response := requests_post env (token_request c) in
  do! raise_for_status response in
  let! token_data := json response in
  let! token := subscript token_data "access_token" in
  do! set_access_token token in
  let! expires_in := py_get token_data "expires_in" (PInt 3600) in
  let! now := utcnow env in
  let! delta := lift (timedelta_seconds expires_in) in
  let! expiry := lift (dt_add now delta) in
  set_token_expiry expiry.

(** The [access_token] property. *)
Definition access_token (env : Env) : M pyval :=
  let! expired := _is_token_expired env in
  do! (if expired then _refresh_token env else ret tt) in
  let! c := get_self in
  ret (_access_token c).

(** [_get_headers] *)
Definition _get_headers (env : Env) : M (gmap string string) :=
  let! token := access_token env in
  ret {["Authorization" := "Bearer " +:+ py_str env token]}.

(** [_make_request].  [kwargs.pop("headers", {})] removes the entry from
    the keyword arguments, which both [requests.request] calls then
    receive; [headers.update] lets the caller's entries win. *)
Definition _make_request (env : Env) (method endpoint : string) (kwargs : Kwargs)
  : M Response :=
  let url := GRAPH_URL +:+ endpoint in
  let! headers := _get_headers env in
  let headers := default ∅ (kw_headers kwargs) ∪ headers in
  let kwargs := kw_options kwargs in
  let! response := requests_request env (mkRequest method url headers kwargs) in
  let! response :=
    (if status_code response =? 401 then
       do! _refresh_token env in
       let! headers := _get_headers env in
       requests_request env (mkRequest method url headers kwargs)
     else ret response) in
  do! raise_for_status response in
  ret response.

(** ** URL quoting

    [requests.utils.quote] is [urllib.parse.quote] with its default
    [safe="/"].  A [str] is held as its UTF-8 bytes, which is what
    [quote] encodes before it escapes byte by byte. *)

Definition always_safe (c : ascii) : bool :=
  let n := N_of_ascii c in
  ((65 <=? n) && (n <=? 90) || (97 <=? n) && (n <=? 122)
   || (48 <=? n) && (n <=? 57))%N
  || Ascii.eqb c "_" || Ascii.eqb c "." || Ascii.eqb c "-" || Ascii.eqb c "~".

Definition hex_digit (n : N) : ascii :=
  ascii_of_N (if (n <? 10)%N then 48 + n else 55 + n).

Definition quote_byte (c : ascii) : string :=
  if always_safe c || Ascii.eqb c "/" then String c ""
  else
    let n := N_of_ascii c in
    String "%" (String (hex_digit (n / 16)) (String (hex_digit (n mod 16)) "")).

Fixpoint quote (s : string) : string :=
  match s with
  | "" => ""
  | String c rest => quote_byte c +:+ quote rest
  end.

(** ** File operations *)

(** [list_files] *)
Definition list_files (env : Env) (folder_id : option string) : M pyval :=
  let! c := get_self in
  let endpoint :=
    match folder_id with
    | Some id =>
        if negb (String.eqb id "")
        then "/users/" +:+ user_email c +:+ "/drive/items/" +:+ id +:+ "/children"
        else "/users/" +:+ user_email c +:+ "/drive/root/children"
    | None => "/users/" +:+ user_email c +:+ "/drive/root/children"
    end in
  let! response := _make_request env "GET" endpoint no_kwargs in
  let! body := json response in
  py_get body "value" (PList []).

(** [get_file_metadata] *)
Definition get_file_metadata (env : Env) (file_id : string) : M pyval :=
  let! c := get_self in
  let endpoint := "/users/" +:+ user_email c +:+ "/drive/items/" +:+ file_id in
  let! response := _make_request env "GET" endpoint no_kwargs in
  json response.

(** [download_file] *)
Definition download_file (env : Env) (file_id : string) : M string :=
  let! c := get_self in
  let endpoint :=
    "/users/" +:+ user_email c +:+ "/drive/items/" +:+ file_id +:+ "/content" in
  let! response :=
    _make_request env "GET" endpoint
      (mkKwargs None {["allow_redirects" := PBool true]}) in
  ret (content response).

(** [search_files] *)
Definition search_files (env : Env) (query : string) : M pyval :=
  let! c := get_self in
  let endpoint :=
    "/users/" +:+ user_email c +:+ "/drive/root/search(q='" +:+ query +:+ "')" in
  let! response := _make_request env "GET" endpoint no_kwargs in
  let! body := json response in
  py_get body "value" (PList []).

(** [get_file_by_path] *)
Definition get_file_by_path (env : Env) (path : string) : M pyval :=
  let! c := get_self in
  let encoded_path := quote path in
  let endpoint := "/users/" +:+ user_email c +:+ "/drive/root:" +:+ encoded_path in
  let! response := _make_request env "GET" endpoint no_kwargs in
  json response.

(** The run of a call on a client that has made no call yet. *)
Definition fresh (c : OneDriveClient) : St := mkSt c 0 [].

(** The events a run added, given the trace it started from. *)
Definition added (s s' : St) : list event := drop (length (trace s)) (trace s').

Definition requests_of (evs : list event) : list Request :=
  omap (λ e, match e with EvRequest q => Some q | EvPost _ => None end) evs.

(** ** Vocabulary of the statements *)

(** The integer a decoded value stands for, when it is one. *)
Definition int_of (v : pyval) : option Z :=
  match v with
  | PInt n => Some n
  | PBool b => Some (if b then 1 else 0)
  | _ => None
  end.


(** The test of [_is_token_expired] at a clock reading: no truthy token,
    no expiry, or a reading at or past the expiry less the skew. *)
Definition stale (c : OneDriveClient) (now : datetime) : bool :=
  negb (truthy (_access_token c))
  || match _token_expiry c with
     | None => true
     | Some expiry => micros expiry - SKEW <=? micros now
     end.

(** The token the identity provider grants in answer to its [k]-th
    POST: the [access_token] entry of a body it sends without an error
    status. *)
Definition granted_token (env : Env) (k : nat) (c : OneDriveClient)
    (token : pyval) : Prop :=
  ∃ r entries,
    idp env k (token_request c) = Responded r
    ∧ is_error_status (status_code r) = false
    ∧ json_body r = Some (PDict entries)
    ∧ assoc "access_token" entries = Some token.

(** The client holds what the identity provider granted in answer to its
    [k]-th POST, read at the clock reading [now]: the token of the body,
    and the expiry [now] plus the lifetime of the body. *)
Definition holds_grant (env : Env) (k : nat) (now : datetime)
    (c : OneDriveClient) : Prop :=
  ∃ r entries delta expiry,
    idp env k (token_request c) = Responded r
    ∧ json_body r = Some (PDict entries)
    ∧ assoc "access_token" entries = Some (_access_token c)
    ∧ timedelta_seconds (default (PInt 3600) (assoc "expires_in" entries)) = Ok delta
    ∧ _token_expiry c = Some expiry
    ∧ micros expiry = micros now + delta.

(** A read of [access_token] that succeeds, from the state [s]: when the
    stored credential is stale the read adds one POST and returns the
    token granted in answer to it; otherwise it adds nothing and returns
    the stored token. *)
Definition token_read_of (env : Env) (s : St) (evs : list event)
    (token : pyval) : Prop :=
  if stale (self s) (clock env (ticks s))
  then evs = [EvPost (token_request (self s))]
       ∧ granted_token env (n_posts (trace s)) (self s) token
  else evs = [] ∧ token = _access_token (self s).

(** The part of [_make_request] that precedes its last
    [raise_for_status]: the response the call ends with. *)
Definition final_response (env : Env) (method endpoint : string) (kwargs : Kwargs)
  : M Response :=
  let url := GRAPH_URL +:+ endpoint in
  let! headers := _get_headers env in
  let headers := default ∅ (kw_headers kwargs) ∪ headers in
  let kwargs := kw_options kwargs in
  let! response := requests_request env (mkRequest method url headers kwargs) in
  if status_code response =? 401 then
    do! _refresh_token env in
    let! headers := _get_headers env in
    requests_request env (mkRequest method url headers kwargs)
  else ret response.

(** ** Sample runs *)

Definition sample_client : OneDriveClient :=
  __init__ "contoso" "app-id" "app-secret" "user@contoso.com".

(** A clock reading in November 2025. *)
Definition sample_now : datetime := Datetime 63899000000000000 I.

Definition token_body (token : string) (expires_in : pyval) : Response :=
  mkResponse 200 ""
    (Some (PDict [("access_token", PStr token); ("expires_in", expires_in)])).

Definition answer (code : Z) : Response := mkResponse code "" (Some (PDict [])).

(** An identity provider that grants one-hour tokens, a frozen clock and
    a target API that answers the k-th request with [codes !! k]
    (200 once the list is used up). *)
Definition sample_env (codes : list Z) : Env :=
  mkEnv (λ _, sample_now)
        (λ _ _, Responded (token_body "tok" (PInt 3600)))
        (λ k _, Responded (answer (default 200 (codes !! k))))
        (λ _, "").

(** The same, with an identity provider whose [expires_in] is a JSON
    string. *)
Definition string_lifetime_env : Env :=
  mkEnv (λ _, sample_now)
        (λ _ _, Responded (token_body "tok" (PStr "3600")))
        (λ _ _, Responded (answer 200))
        (λ _, "").


(** The same, with an identity provider whose tokens live one minute,
    less than the skew. *)
Definition short_lifetime_env (codes : list Z) : Env :=
  mkEnv (λ _, sample_now)
        (λ _ _, Responded (token_body "tok" (PInt 60)))
        (λ k _, Responded (answer (default 200 (codes !! k))))
        (λ _, "").

(** The same, with an identity provider whose [expires_in] is so far
    below zero that the expiry falls on the first day of the calendar,
    299 seconds after its start. *)
Definition early_expiry_env : Env :=
  mkEnv (λ _, sample_now)
        (λ _ _, Responded (token_body "tok" (PInt (-63898999701))))
        (λ _ _, Responded (answer 200))
        (λ _, "").



(** A client holding a token that expires one hour after [sample_now]. *)
Definition sample_expiry : datetime := Datetime 63899003600000000 I.

Definition valid_client : OneDriveClient :=
  with_token_expiry (with_access_token sample_client (PStr "held")) sample_expiry.

(** ** The dispatcher's requests

    Names for the pieces of [_make_request] the statements refer to. *)

(** The dict [_get_headers] returns for a token. *)
Definition bearer (env : Env) (token : pyval) : gmap string string :=
  {["Authorization" := "Bearer " +:+ py_str env token]}.

(** The request of the first attempt and the request of the retry, as
    [_make_request] builds them from the token it has read. *)
Definition first_request (env : Env) (method endpoint : string) (kwargs : Kwargs)
    (token : pyval) : Request :=
  mkRequest method (GRAPH_URL +:+ endpoint)
            (default ∅ (kw_headers kwargs) ∪ bearer env token) (kw_options kwargs).

Definition retry_request (env : Env) (method endpoint : string) (kwargs : Kwargs)
    (token : pyval) : Request :=
  mkRequest method (GRAPH_URL +:+ endpoint) (bearer env token) (kw_options kwargs).

(** [raise_for_status] followed by [return response]. *)
Definition checked (r : Response) : result Response :=
  if is_error_status (status_code r) then Raise (HTTPError r) else Ok r.

(** The state once a request has been handed to the transport. *)
Definition sent (s : St) (q : Request) : St :=
  mkSt (self s) (ticks s) (trace s ++ [EvRequest q]).

(** The branch taken on a 401, from the state in which the first request
    has been sent. *)
Definition retry (env : Env) (method endpoint : string) (kwargs : Kwargs)
    (s : St) : result Response * St :=
  match _refresh_token env s with
  | (Raise e, s2) => (Raise e, s2)
  | (Ok _, s2) =>
      match access_token env s2 with
      | (Raise e, s3) => (Raise e, s3)
      | (Ok token, s3) =>
          let q2 := retry_request env method endpoint kwargs token in
          (of_reply (api env (n_requests (trace s3)) q2), sent s3 q2)
      end
  end.

(** The events of reading the [access_token] property: nothing, or the
    one POST of a refresh its expiry check asked for. *)
Definition token_read (c : OneDriveClient) (evs : list event) : Prop :=
  evs = [] ∨ evs = [EvPost (token_request c)].

Definition succeeded {A} (r : result A) : Prop :=
  match r with Ok _ => True | Raise _ => False end.

(** A call targets [url]: each request it makes is a GET of that URL,
    and it does make one as soon as the token can be read. *)
Definition targets {A} (env : Env) (call : M A) (s : St) (url : string) : Prop :=
  Forall (λ q, req_method q = "GET" ∧ req_url q = url)
         (requests_of (added s (snd (call s))))
  ∧ (succeeded (fst (access_token env s))
     → requests_of (added s (snd (call s))) ≠ []).

(** ** Characters of a quoted string *)

Fixpoint string_forall (P : ascii → bool) (s : string) : bool :=
  match s with
  | "" => true
  | String c rest => P c && string_forall P rest
  end.

(** What [quote] lets through: the always-safe characters, the slash,
    and the percent sign of its own escapes. *)
Definition url_safe (c : ascii) : bool :=
  always_safe c || Ascii.eqb c "/" || Ascii.eqb c "%".

(** ** The client identity *)

(** The four constructor arguments, which no method assigns. *)
Definition identity (c : OneDriveClient) : string * string * string * string :=
  (tenant_id c, client_id c, client_secret c, user_email c).

(** No credential is held: the expiry check answers without the clock. *)
Definition no_credential (c : OneDriveClient) : Prop :=
  truthy (_access_token c) = false ∨ _token_expiry c = None.

(** An identity provider that refuses every token request, before a
    target API answering as in [sample_env]. *)
Definition refusing_env (codes : list Z) : Env :=
  mkEnv (λ _, sample_now)
        (λ _ _, Responded (answer 401))
        (λ k _, Responded (answer (default 200 (codes !! k))))
        (λ _, "").

(** An identity provider that cannot be reached, before a target API
    answering as in [sample_env]. *)
Definition idp_down_env (codes : list Z) : Env :=
  mkEnv (λ _, sample_now)
        (λ _ _, Failed "connection refused")
        (λ k _, Responded (answer (default 200 (codes !! k))))
        (λ _, "").

(** A target API that cannot be reached. *)
Definition unreachable_env : Env :=
  mkEnv (λ _, sample_now)
        (λ _ _, Responded (token_body "tok" (PInt 3600)))
        (λ _ _, Failed "connection refused")
        (λ _, "").

(** A clock that advances one second with each reading, from
    [sample_now]. *)
Definition ticking (k : nat) : datetime :=
  match datetime_of (micros sample_now + Z.of_nat k * 1000000) with
  | Ok t => t
  | Raise _ => sample_now
  end.

(** An identity provider that grants tokens living [life] seconds, under
    the ticking clock. *)
Definition ticking_env (life : Z) : Env :=
  mkEnv ticking
        (λ _ _, Responded (token_body "tok" (PInt life)))
        (λ _ _, Responded (answer 200))
        (λ _, "").

(** The characters [quote] copies: the always-safe ones and the slash. *)
Definition kept_by_quote (c : ascii) : bool := always_safe c || Ascii.eqb c "/".

(** The URL [get_file_by_path] requests for a client and a path. *)
Definition path_url (c : OneDriveClient) (path : string) : string :=
  GRAPH_URL +:+ "/users/" +:+ user_email c +:+ "/drive/root:" +:+ quote path.

(** The endpoint [list_files] builds for a client and a folder id. *)
Definition children_endpoint (c : OneDriveClient) (folder_id : option string)
  : string :=
  match folder_id with
  | Some id =>
      if negb (String.eqb id "")
      then "/users/" +:+ user_email c +:+ "/drive/items/" +:+ id +:+ "/children"
      else "/users/" +:+ user_email c +:+ "/drive/root/children"
  | None => "/users/" +:+ user_email c +:+ "/drive/root/children"
  end.

(** The endpoint [search_files] builds. *)
Definition search_endpoint (c : OneDriveClient) (query : string) : string :=
  "/users/" +:+ user_email c +:+ "/drive/root/search(q='" +:+ query +:+ "')".

(** The endpoints of [get_file_metadata] and [download_file]. *)
Definition item_endpoint (c : OneDriveClient) (file_id : string) : string :=
  "/users/" +:+ user_email c +:+ "/drive/items/" +:+ file_id.

Definition content_endpoint (c : OneDriveClient) (file_id : string) : string :=
  "/users/" +:+ user_email c +:+ "/drive/items/" +:+ file_id +:+ "/content".

(** The keyword arguments [download_file] passes on. *)
Definition follow_redirects : Kwargs :=
  mkKwargs None {["allow_redirects" := PBool true]}.

(** [response.json().get("value", [])], as a result. *)
Definition value_field (r : Response) : result pyval :=
  match json_body r with
  | None => Raise JSONDecodeError
  | Some (PDict entries) => Ok (default (PList []) (assoc "value" entries))
  | Some _ => Raise AttributeError
  end.

(** A target API whose answers are JSON objects without a [value]
    entry, and one whose answers are not JSON. *)
Definition plain_env : Env :=
  mkEnv (λ _, sample_now)
        (λ _ _, Responded (token_body "tok" (PInt 3600)))
        (λ _ _, Responded (mkResponse 200 "raw bytes" None))
        (λ _, "").

(** ** The script at the end of the module

    The block under [if __name__ == "__main__"]: it reads four
    environment variables, builds a client, prints the root listing and
    the results of a search for "report".  Its run is given by the
    outcome, the events of the client and the arguments of the [print]
    calls, in order. *)

(** [os.environ[key]] *)
Definition getenv (environ : gmap string string) (key : string) : result string :=
  match environ !! key with
  | Some v => Ok v
  | None => Raise (KeyError key)
  end.

Definition is_continuation (c : ascii) : bool :=
  let n := N_of_ascii c in ((128 <=? n) && (n <? 192))%N.

(** The characters of a [str] held as UTF-8 bytes: a byte that is not a
    continuation byte starts a new character. *)
Fixpoint utf8_chars (current : string) (s : string) : list string :=
  match s with
  | "" => match current with "" => [] | _ => [current] end
  | String c rest =>
      if is_continuation c then utf8_chars (current +:+ String c "") rest
      else match current with
           | "" => utf8_chars (String c "") rest
           | _ => current :: utf8_chars (String c "") rest
           end
  end.

(** The keys of a decoded object, each once, in order. *)
Fixpoint dict_keys (seen : list string) (entries : list (string * pyval))
  : list string :=
  match entries with
  | [] => []
  | (k, _) :: rest =>
      if existsb (String.eqb k) seen then dict_keys seen rest
      else k :: dict_keys (k :: seen) rest
  end.

(** What [for item in v] iterates over. *)
Definition py_iter (v : pyval) : result (list pyval) :=
  match v with
  | PList items => Ok items
  | PDict entries => Ok (map PStr (dict_keys [] entries))
  | PStr s => Ok (map PStr (utf8_chars "" s))
  | _ => Raise TypeError
  end.

Fixpoint is_prefix (needle hay : string) : bool :=
  match needle, hay with
  | "", _ => true
  | String a needle', String b hay' => Ascii.eqb a b && is_prefix needle' hay'
  | String _ _, "" => false
  end.

Fixpoint is_substring (needle hay : string) : bool :=
  is_prefix needle hay
  || match hay with
     | "" => false
     | String _ hay' => is_substring needle hay'
     end.

(** [key in v] for a string [key]: a key of a dict, an element of a list,
    a substring of a string. *)
Definition py_contains (key : string) (v : pyval) : result bool :=
  match v with
  | PDict entries => Ok (match assoc key entries with Some _ => true | None => false end)
  | PList items =>
      Ok (existsb (λ x, match x with PStr s => String.eqb s key | _ => false end) items)
  | PStr s => Ok (is_substring key s)
  | _ => Raise TypeError
  end.

(** [v[key]] outside the monad. *)
Definition py_item (v : pyval) (key : string) : result pyval :=
  match v with
  | PDict entries =>
      match assoc key entries with
      | Some x => Ok x
      | None => Raise (KeyError key)
      end
  | _ => Raise TypeError
  end.

Definition bytes (codes : list N) : string :=
  fold_right (λ n s, String (ascii_of_N n) s) "" codes.

(** The two literals of the listing loop, byte for byte. *)
Definition FOLDER_MARK : string := bytes [196; 159; 197; 184; 226; 128; 156]%N.
Definition FILE_MARK : string :=
  bytes [196; 159; 197; 184; 226; 128; 156; 226; 128; 158]%N.

(** The line the first loop prints for an item. *)
Definition root_line (env : Env) (item : pyval) : result string :=
  match py_contains "folder" item with
  | Raise e => Raise e
  | Ok is_folder =>
      let item_type := if is_folder then FOLDER_MARK else FILE_MARK in
      match py_item item "name" with
      | Raise e => Raise e
      | Ok name => Ok ("  " +:+ item_type +:+ " " +:+ py_str env name)
      end
  end.

(** The line the second loop prints for an item. *)
Definition search_line (env : Env) (item : pyval) : result string :=
  match py_item item "name" with
  | Raise e => Raise e
  | Ok name => Ok ("  " +:+ FILE_MARK +:+ " " +:+ py_str env name)
  end.

(** A [for] loop whose body prints one line: the output so far, and the
    exception that ended the loop if one did. *)
Fixpoint print_items (line : pyval → result string) (items : list pyval)
    (out : list string) : result unit * list string :=
  match items with
  | [] => (Ok tt, out)
  | item :: rest =>
      match line item with
      | Raise e => (Raise e, out)
      | Ok text => print_items line rest (out ++ [text])
      end
  end.

Definition SEARCH_HEADER : string :=
  String (ascii_of_N 10) "Search results for 'report':".

Record Run : Type := mkRun {
  outcome : result unit;
  events : list event;
  printed : list string
}.

(** The two loops, once the client exists. *)
Definition main_body (env : Env) (client : OneDriveClient) : Run :=
  let out := ["Files in root:"] in
  match list_files env None (fresh client) with
  | (Raise e, s1) => mkRun (Raise e) (trace s1) out
  | (Ok files, s1) =>
      match py_iter files with
      | Raise e => mkRun (Raise e) (trace s1) out
      | Ok items =>
          match print_items (root_line env) items out with
          | (Raise e, out1) => mkRun (Raise e) (trace s1) out1
          | (Ok _, out1) =>
              let out2 := out1 ++ [SEARCH_HEADER] in
              match search_files env "report" s1 with
              | (Raise e, s2) => mkRun (Raise e) (trace s2) out2
              | (Ok found, s2) =>
                  match py_iter found with
                  | Raise e => mkRun (Raise e) (trace s2) out2
                  | Ok items2 =>
                      let (r, out3) := print_items (search_line env) items2 out2 in
                      mkRun r (trace s2) out3
                  end
              end
          end
      end
  end.

(** The script. *)
Definition main (env : Env) (environ : gmap string string) : Run :=
  match getenv environ "TENANT_ID" with
  | Raise e => mkRun (Raise e) [] []
  | Ok tenant =>
      match getenv environ "CLIENT_ID" with
      | Raise e => mkRun (Raise e) [] []
      | Ok client =>
          match getenv environ "CLIENT_SECRET" with
          | Raise e => mkRun (Raise e) [] []
          | Ok secret =>
              match getenv environ "USER_EMAIL" with
              | Raise e => mkRun (Raise e) [] []
              | Ok email => main_body env (__init__ tenant client secret email)
              end
          end
      end
  end.

(** The environment of a sample run of the script. *)
Definition sample_environ : gmap string string :=
  <["TENANT_ID" := "contoso"]>
  (<["CLIENT_ID" := "app-id"]>
   (<["CLIENT_SECRET" := "app-secret"]>
    (<["USER_EMAIL" := "user@contoso.com"]> ∅))).

(** A target API with one folder and one file in the root, and nothing
    found by the search. *)
Definition drive_env : Env :=
  mkEnv (λ _, sample_now)
        (λ _ _, Responded (token_body "tok" (PInt 3600)))
        (λ k _, Responded
                  (mkResponse 200 ""
                     (Some (PDict
                        [("value",
                          if (k =? 0)%nat
                          then PList [PDict [("name", PStr "Documents");
                                             ("folder", PDict [])];
                                      PDict [("name", PStr "notes.txt")]]
                          else PList [])]))))
        (λ _, "").

(** The variables the script reads, in the order it reads them. *)
Definition VARIABLES : list string :=
  ["TENANT_ID"; "CLIENT_ID"; "CLIENT_SECRET"; "USER_EMAIL"].

Definition unset (environ : gmap string string) (key : string) : bool :=
  match environ !! key with None => true | Some _ => false end.

(** An environment in which only the tenant is set. *)
Definition tenant_only : gmap string string := {["TENANT_ID" := "contoso"]}.

(** A target API whose root listing holds an item without a name after
    one that has one. *)
Definition nameless_env : Env :=
  mkEnv (λ _, sample_now)
        (λ _ _, Responded (token_body "tok" (PInt 3600)))
        (λ _ _, Responded
                  (mkResponse 200 ""
                     (Some (PDict
                        [("value", PList [PDict [("name", PStr "notes.txt")];
                                          PDict [("id", PStr "42")];
                                          PDict [("name", PStr "later.txt")]])]))))
        (λ _, "").

(** * Properties *)

(** ** Datetimes *)

Lemma datetime_eq (a b : datetime) : micros a = micros b → a = b.
Proof.
  destruct a as [x Hx], b as [y Hy]; simpl; intros ->.
  f_equal. apply proof_irrel.
Qed.

Lemma micros_bounds (t : datetime) : 0 ≤ micros t ≤ DT_MAX.
Proof.
  destruct t as [z Hz]; simpl. unfold in_range in Hz.
  apply andb_prop_elim in Hz as [H1 H2].
  apply Is_true_true in H1, H2. lia.
Qed.

Lemma datetime_of_Ok (z : Z) (d : datetime) :
  datetime_of z = Ok d → micros d = z.
Proof.
  unfold datetime_of. destruct (decide _); intros H; inversion H; reflexivity.
Qed.

Lemma datetime_of_in_range (z : Z) :
  0 ≤ z ≤ DT_MAX → ∃ d, datetime_of z = Ok d ∧ micros d = z.
Proof.
  intros Hz. unfold datetime_of. destruct (decide _) as [H|H].
  - eexists; split; reflexivity.
  - exfalso. apply H. unfold in_range.
    apply Is_true_true, andb_true_iff. split; lia.
Qed.

Lemma datetime_of_Raise (z : Z) (e : exn) :
  datetime_of z = Raise e → e = OverflowError ∧ ¬ (0 ≤ z ≤ DT_MAX).
Proof.
  intros H. split.
  - unfold datetime_of in H. destruct (decide _); congruence.
  - intros Hz. destruct (datetime_of_in_range z Hz) as (d & Hd & _). congruence.
Qed.

(** ** What the credential manager does to the run *)

Ltac unfold_m :=
  unfold bind, ret, raise, lift, get_self, set_access_token, set_token_expiry,
    utcnow, requests_post, requests_request, raise_for_status, json,
    subscript, py_get in *.

Section CredentialManager.
Variable env : Env.

(** [_is_token_expired], outcome by outcome. *)
Lemma is_token_expired_unfold (s : St) :
  _is_token_expired env s =
  match _token_expiry (self s) with
  | Some expiry =>
      if truthy (_access_token (self s)) then
        let s1 := mkSt (self s) (S (ticks s)) (trace s) in
        match dt_sub expiry SKEW with
        | Ok limit => (Ok (micros limit <=? micros (clock env (ticks s))), s1)
        | Raise e => (Raise e, s1)
        end
      else (Ok true, s)
  | None => (Ok true, s)
  end.
Proof.
  unfold _is_token_expired; unfold_m; simpl.
  destruct (truthy _); simpl; [|by destruct (_token_expiry (self s))].
  destruct (_token_expiry (self s)); [|reflexivity].
  destruct (dt_sub _ _); reflexivity.
Qed.

(** [_refresh_token], outcome by outcome: the POST is sent first, the
    token is stored as soon as it is read from the body, the expiry
    only once the lifetime has been turned into a datetime. *)
Lemma refresh_token_unfold (s : St) :
  _refresh_token env s =
  let q := token_request (self s) in
  let s1 := mkSt (self s) (ticks s) (trace s ++ [EvPost q]) in
  match idp env (n_posts (trace s)) q with
  | Failed msg => (Raise (RequestException msg), s1)
  | Responded r =>
      if is_error_status (status_code r) then (Raise (HTTPError r), s1)
      else
        match json_body r with
        | None => (Raise JSONDecodeError, s1)
        | Some (PDict entries) =>
            match assoc "access_token" entries with
            | None => (Raise (KeyError "access_token"), s1)
            | Some token =>
                let c1 := with_access_token (self s) token in
                let s2 := mkSt c1 (S (ticks s)) (trace s1) in
                match timedelta_seconds
                        (default (PInt 3600) (assoc "expires_in" entries)) with
                | Raise e => (Raise e, s2)
                | Ok delta =>
                    match dt_add (clock env (ticks s)) delta with
                    | Raise e => (Raise e, s2)
                    | Ok expiry =>
                        (Ok tt, mkSt (with_token_expiry c1 expiry)
                                     (S (ticks s)) (trace s1))
                    end
                end
            end
        | Some _ => (Raise TypeError, s1)
        end
  end.
Proof.
  unfold _refresh_token; unfold_m; simpl.
  destruct (idp env _ _) as [r|msg]; simpl; [|reflexivity].
  destruct (is_error_status _); simpl; [reflexivity|].
  destruct (json_body r) as [[| | | | | |entries]|]; simpl; try reflexivity.
  destruct (assoc "access_token" entries); simpl; [|reflexivity].
  destruct (assoc "expires_in" entries) as [v|]; simpl.
  - destruct (timedelta_seconds v); simpl; [|reflexivity].
    destruct (dt_add _ _); reflexivity.
  - destruct (timedelta_seconds (PInt 3600)); simpl; [|reflexivity].
    destruct (dt_add _ _); reflexivity.
Qed.

(** The expiry check contacts nobody and assigns nothing. *)
Lemma is_token_expired_frame (s : St) :
  self (snd (_is_token_expired env s)) = self s
  ∧ trace (snd (_is_token_expired env s)) = trace s.
Proof.
  rewrite is_token_expired_unfold.
  destruct (_token_expiry (self s)); [|done].
  destruct (truthy _); simpl; [|done].
  destruct (dt_sub _ _); done.
Qed.

(** One refresh is one POST to the identity provider, whatever comes of
    it. *)
Lemma refresh_token_trace (s : St) :
  trace (snd (_refresh_token env s)) = trace s ++ [EvPost (token_request (self s))].
Proof.
  rewrite refresh_token_unfold; simpl.
  repeat case_match; reflexivity.
Qed.

(** A refresh assigns the two credential attributes only. *)
Lemma refresh_token_identity (s : St) :
  token_request (self (snd (_refresh_token env s))) = token_request (self s)
  ∧ user_email (self (snd (_refresh_token env s))) = user_email (self s).
Proof.
  rewrite refresh_token_unfold; simpl.
  repeat case_match; done.
Qed.

(** [access_token], in terms of the two steps it is made of. *)
Lemma access_token_unfold (s : St) :
  access_token env s =
  match _is_token_expired env s with
  | (Ok true, s1) =>
      match _refresh_token env s1 with
      | (Ok _, s2) => (Ok (_access_token (self s2)), s2)
      | (Raise e, s2) => (Raise e, s2)
      end
  | (Ok false, s1) => (Ok (_access_token (self s1)), s1)
  | (Raise e, s1) => (Raise e, s1)
  end.
Proof.
  unfold access_token, bind at 1.
  destruct (_is_token_expired env s) as [[[|]|e] s1]; [| reflexivity ..].
  unfold bind at 1.
  destruct (_refresh_token env s1) as [[[]|e] s2]; reflexivity.
Qed.

(** Reading the token contacts the identity provider at most once and
    the target API never. *)
Lemma access_token_trace (s : St) :
  trace (snd (access_token env s)) = trace s
  ∨ trace (snd (access_token env s)) = trace s ++ [EvPost (token_request (self s))].
Proof.
  rewrite access_token_unfold.
  pose proof (is_token_expired_frame s) as [Hself Htrace].
  destruct (_is_token_expired env s) as [[[|]|e] s1]; simpl in *; auto.
  right. pose proof (refresh_token_trace s1) as Ht.
  destruct (_refresh_token env s1) as [[[]|e] s2]; simpl in *;
    rewrite Ht, Htrace, Hself; reflexivity.
Qed.

Lemma access_token_identity (s : St) :
  token_request (self (snd (access_token env s))) = token_request (self s)
  ∧ user_email (self (snd (access_token env s))) = user_email (self s).
Proof.
  rewrite access_token_unfold.
  pose proof (is_token_expired_frame s) as [Hself _].
  destruct (_is_token_expired env s) as [[[|]|e] s1]; simpl in *;
    rewrite <- ?Hself; auto.
  pose proof (refresh_token_identity s1) as Hid.
  destruct (_refresh_token env s1) as [[[]|e] s2]; simpl in *; exact Hid.
Qed.

End CredentialManager.

(** ** Expiry with skew *)

Lemma app_singleton_ne {A} (l : list A) (x : A) : l ++ [x] ≠ l.
Proof.
  intros H. apply (f_equal length) in H. rewrite length_app in H. simpl in H. lia.
Qed.

(** C5, where the code departs from it: a refresh answered with an
    [expires_in] of -63898999701 succeeds and stores a truthy token with
    the expiry 0001-01-01T00:04:59.  The clock is then past that expiry
    less five minutes, yet the next read of [access_token] asks for no
    refresh: the subtraction of the skew leaves the calendar and the
    read raises [OverflowError], the clock read once and nothing
    posted. *)
Theorem access_token_overflow_at_early_expiry :
  ∃ s1 expiry,
    _refresh_token early_expiry_env (fresh sample_client) = (Ok tt, s1)
    ∧ truthy (_access_token (self s1)) = true
    ∧ _token_expiry (self s1) = Some expiry
    ∧ micros expiry = 299 * 1000000
    ∧ micros expiry - SKEW ≤ micros (clock early_expiry_env (ticks s1))
    ∧ access_token early_expiry_env s1
      = (Raise OverflowError, mkSt (self s1) (S (ticks s1)) (trace s1)).
Proof.
  do 2 eexists. split; [vm_compute; reflexivity|]. simpl.
  split; [reflexivity|]. split; [reflexivity|]. split; [reflexivity|].
  split; [by vm_compute|]. vm_compute. reflexivity.
Qed.

(** ** Refreshing the credential *)

(** The exceptions of [timedelta(seconds=v)]. *)
Lemma float_micros_Raise (x : spec_float) (e : exn) :
  float_micros x = Raise e → e = ValueError ∨ e = OverflowError.
Proof.
  unfold float_micros.
  destruct x as [?|?| |sg m e']; try (intros [= <-]; by auto); try discriminate.
  destruct (0 <=? e'); [discriminate|].
  destruct (_ =? 0); [discriminate|].
  destruct (binary_normalize _ _ _ _ _) as [?|?| |s' m' e''];
    try (intros [= <-]; by auto); try discriminate.
  destruct (0 <=? e''); discriminate.
Qed.

Lemma timedelta_seconds_Raise (v : pyval) (e : exn) :
  timedelta_seconds v = Raise e →
  e = TypeError ∨ e = ValueError ∨ e = OverflowError.
Proof.
  unfold timedelta_seconds.
  destruct v as [|b|n|x|?|?|?]; simpl; try (intros [= <-]; by auto).
  - destruct (_ && _); [discriminate|]. intros [= <-]; auto.
  - destruct (_ && _); [discriminate|]. intros [= <-]; auto.
  - destruct (float_micros x) as [us|e'] eqn:Hf.
    + destruct (_ && _); [discriminate|]. intros [= <-]; auto.
    + intros [= <-]. apply float_micros_Raise in Hf. tauto.
Qed.

(** A lifetime that [timedelta] accepts is an integer count of seconds,
    taken exactly, or a float. *)
Lemma timedelta_seconds_Ok (v : pyval) (delta : timedelta) :
  timedelta_seconds v = Ok delta →
  (∃ n, int_of v = Some n ∧ delta = n * 1000000)
  ∨ (∃ x, v = PFloat x ∧ float_micros x = Ok delta).
Proof.
  unfold timedelta_seconds.
  destruct v as [|b|n|x|?|?|?]; simpl; try discriminate.
  - destruct (_ && _); [|discriminate]. intros H; inversion H. eauto.
  - destruct (_ && _); [|discriminate]. intros H; inversion H. eauto.
  - destruct (float_micros x) as [us|e] eqn:Hf; [|discriminate].
    destruct (_ && _); [|discriminate]. intros [= <-]. right. by exists x.
Qed.

Lemma timedelta_seconds_int (v : pyval) (n : Z) (delta : timedelta) :
  int_of v = Some n → timedelta_seconds v = Ok delta → delta = n * 1000000.
Proof.
  intros Hn Hd. apply timedelta_seconds_Ok in Hd as [(n' & Hn' & ->)|(x & -> & _)].
  - congruence.
  - discriminate.
Qed.




(** The refresh does succeed on a body without [expires_in], as long as
    one hour from the clock reading is still in the calendar. *)
Lemma refresh_token_default_lifetime (env : Env) (s : St) (r : Response)
    (entries : list (string * pyval)) (token : pyval) :
  idp env (n_posts (trace s)) (token_request (self s)) = Responded r →
  is_error_status (status_code r) = false →
  json_body r = Some (PDict entries) →
  assoc "access_token" entries = Some token →
  assoc "expires_in" entries = None →
  micros (clock env (ticks s)) + 3600 * 1000000 ≤ DT_MAX →
  ∃ expiry,
    _refresh_token env s
    = (Ok tt, mkSt (with_token_expiry (with_access_token (self s) token) expiry)
                   (S (ticks s))
                   (trace s ++ [EvPost (token_request (self s))]))
    ∧ micros expiry = micros (clock env (ticks s)) + 3600 * 1000000.
Proof.
  intros Hr Hst Hj Htok Hexp Hmax.
  rewrite refresh_token_unfold. simpl. rewrite Hr, Hst, Hj, Htok, Hexp. simpl.
  pose proof (micros_bounds (clock env (ticks s))).
  destruct (datetime_of_in_range (micros (clock env (ticks s)) + 3600 * 1000000))
    as (expiry & He & Hm); [lia|].
  unfold dt_add. rewrite He. eauto.
Qed.

(** What a successful refresh has read and stored. *)
Lemma refresh_token_Ok_inv (env : Env) (s s' : St) :
  _refresh_token env s = (Ok tt, s') →
  ∃ r entries token expiry delta,
    idp env (n_posts (trace s)) (token_request (self s)) = Responded r
    ∧ is_error_status (status_code r) = false
    ∧ json_body r = Some (PDict entries)
    ∧ assoc "access_token" entries = Some token
    ∧ timedelta_seconds (default (PInt 3600) (assoc "expires_in" entries)) = Ok delta
    ∧ micros expiry = micros (clock env (ticks s)) + delta
    ∧ s' = mkSt (with_token_expiry (with_access_token (self s) token) expiry)
                (S (ticks s)) (trace s ++ [EvPost (token_request (self s))]).
Proof.
  rewrite refresh_token_unfold. simpl.
  destruct (idp env _ _) as [r|msg] eqn:Hr; [|discriminate].
  destruct (is_error_status _) eqn:Hst; [discriminate|].
  destruct (json_body r) as [[| | | | | |entries]|] eqn:Hj; try discriminate.
  destruct (assoc "access_token" entries) as [token|] eqn:Htok; [|discriminate].
  destruct (timedelta_seconds _) as [delta|] eqn:Hdelta; [|discriminate].
  destruct (dt_add _ _) as [expiry|] eqn:Hadd; [|discriminate].
  intros [= <-].
  apply datetime_of_Ok in Hadd.
  by exists r, entries, token, expiry, delta.
Qed.

(** A refresh that fails before the body has given a token (transport
    failure, error status, body that is not JSON or not an object, no
    [access_token] entry) assigns nothing. *)
Lemma refresh_token_early_failure (env : Env) (s s' : St) (e : exn) :
  _refresh_token env s = (Raise e, s') →
  e ≠ TypeError → e ≠ ValueError → e ≠ OverflowError →
  self s' = self s.
Proof.
  rewrite refresh_token_unfold. simpl. intros H HT HV HO.
  destruct (idp env _ _) as [r|msg]; [|by inversion H].
  destruct (is_error_status _); [by inversion H|].
  destruct (json_body r) as [[| | | | | |entries]|]; try by inversion H.
  destruct (assoc "access_token" entries) as [token|]; [|by inversion H].
  destruct (timedelta_seconds _) as [delta|] eqn:Hdelta.
  - destruct (dt_add _ _) as [expiry|] eqn:Hadd; [discriminate|].
    apply datetime_of_Raise in Hadd as [-> _]. inversion H; congruence.
  - apply timedelta_seconds_Raise in Hdelta. inversion H; subst e.
    destruct Hdelta as [?|[?|?]]; congruence.
Qed.

(** C8: on a fresh client (no token, no expiry) a refresh answered with
    a body whose [expires_in] is the string "3600" raises [TypeError]
    after the token has been stored: the client is left with a token and
    no expiry. *)
Theorem refresh_token_partial_update :
  ∃ s', _refresh_token string_lifetime_env (fresh sample_client)
        = (Raise TypeError, s')
        ∧ _access_token (self (fresh sample_client)) = PNone
        ∧ _token_expiry (self (fresh sample_client)) = None
        ∧ _access_token (self s') = PStr "tok"
        ∧ _token_expiry (self s') = None.
Proof. eexists. vm_compute. repeat split. Qed.

(** ** The dispatcher, outcome by outcome *)

Section Dispatcher.
Variable env : Env.
Variables method endpoint : string.
Variable kwargs : Kwargs.

Lemma get_headers_unfold (s : St) :
  _get_headers env s =
  match access_token env s with
  | (Ok token, s1) => (Ok (bearer env token), s1)
  | (Raise e, s1) => (Raise e, s1)
  end.
Proof.
  unfold _get_headers, bind at 1.
  destruct (access_token env s) as [[token|e] s1]; reflexivity.
Qed.

Lemma final_response_unfold (s : St) :
  final_response env method endpoint kwargs s =
  match access_token env s with
  | (Raise e, s1) => (Raise e, s1)
  | (Ok token, s1) =>
      let q1 := first_request env method endpoint kwargs token in
      match api env (n_requests (trace s1)) q1 with
      | Failed msg => (Raise (RequestException msg), sent s1 q1)
      | Responded r1 =>
          if status_code r1 =? 401
          then retry env method endpoint kwargs (sent s1 q1)
          else (Ok r1, sent s1 q1)
      end
  end.
Proof.
  unfold final_response, bind at 1. rewrite get_headers_unfold.
  destruct (access_token env s) as [[token|e] s1]; [|reflexivity].
  unfold bind at 1, requests_request at 1; simpl.
  destruct (api env _ _) as [r1|msg]; simpl; [|reflexivity].
  destruct (status_code r1 =? 401); [|reflexivity].
  unfold retry, bind at 1.
  destruct (_refresh_token env _) as [[[]|e] s2]; [|reflexivity].
  unfold bind at 1. rewrite get_headers_unfold.
  destruct (access_token env s2) as [[token2|e] s3]; reflexivity.
Qed.

(** The call is its final response followed by [raise_for_status]. *)
Lemma make_request_unfold (s : St) :
  _make_request env method endpoint kwargs s =
  match final_response env method endpoint kwargs s with
  | (Ok r, s') => (checked r, s')
  | (Raise e, s') => (Raise e, s')
  end.
Proof.
  rewrite final_response_unfold.
  unfold _make_request, bind at 1. rewrite get_headers_unfold.
  destruct (access_token env s) as [[token|e] s1]; [|reflexivity].
  unfold bind at 1, requests_request at 1; simpl.
  destruct (api env _ _) as [r1|msg]; simpl; [|reflexivity].
  unfold bind at 1.
  destruct (status_code r1 =? 401).
  - unfold retry, bind at 1.
    destruct (_refresh_token env _) as [[[]|e] s2]; [|reflexivity].
    unfold bind at 1. rewrite get_headers_unfold.
    destruct (access_token env s2) as [[token2|e] s3]; [|reflexivity].
    unfold requests_request, sent; simpl.
    destruct (api env _ _) as [r2|msg]; simpl; [|reflexivity].
    unfold checked, bind, raise_for_status, raise, ret.
    destruct (is_error_status _); reflexivity.
  - unfold ret at 1, checked, bind, raise_for_status, raise, ret.
    destruct (is_error_status _); reflexivity.
Qed.

End Dispatcher.

(** ** Counting requests *)

Lemma n_requests_app (l k : list event) :
  n_requests (l ++ k) = (n_requests l + n_requests k)%nat.
Proof.
  induction l as [|[p|q] l IH]; [reflexivity| |].
  - exact IH.
  - change (n_requests ((EvRequest q :: l) ++ k)) with (S (n_requests (l ++ k))).
    change (n_requests (EvRequest q :: l)) with (S (n_requests l)).
    by rewrite IH.
Qed.

Lemma n_posts_app (l k : list event) :
  n_posts (l ++ k) = (n_posts l + n_posts k)%nat.
Proof.
  induction l as [|[p|q] l IH]; [reflexivity| |].
  - change (n_posts ((EvPost p :: l) ++ k)) with (S (n_posts (l ++ k))).
    change (n_posts (EvPost p :: l)) with (S (n_posts l)).
    by rewrite IH.
  - exact IH.
Qed.

Lemma requests_of_app (l k : list event) :
  requests_of (l ++ k) = requests_of l ++ requests_of k.
Proof. unfold requests_of. apply omap_app. Qed.

Lemma n_requests_length (l : list event) :
  n_requests l = length (requests_of l).
Proof.
  induction l as [|[p|q] l IH]; [reflexivity| |].
  - exact IH.
  - change (n_requests (EvRequest q :: l)) with (S (n_requests l)).
    change (requests_of (EvRequest q :: l)) with (q :: requests_of l).
    simpl. by rewrite IH.
Qed.

Lemma added_app (s s' : St) (evs : list event) :
  trace s' = trace s ++ evs → added s s' = evs.
Proof. intros H. unfold added. rewrite H. apply drop_app_length. Qed.

Lemma token_read_requests (c : OneDriveClient) (evs : list event) :
  token_read c evs → requests_of evs = [] ∧ n_requests evs = 0%nat.
Proof. intros [->| ->]; done. Qed.

Section Traces.
Variable env : Env.

Lemma access_token_added (s : St) :
  ∃ evs, trace (snd (access_token env s)) = trace s ++ evs
         ∧ token_read (self s) evs.
Proof.
  destruct (access_token_trace env s) as [H|H].
  - exists []. rewrite app_nil_r. split; [exact H|by left].
  - eexists. split; [exact H|by right].
Qed.

(** The 401 branch: the forced POST, the token read, then at most one
    more request. *)
Lemma retry_added (method endpoint : string) (kwargs : Kwargs) (s : St) :
  ∃ mid rest,
    trace (snd (retry env method endpoint kwargs s))
    = trace s ++ [EvPost (token_request (self s))] ++ mid ++ rest
    ∧ token_read (self s) mid
    ∧ (rest = []
       ∨ ∃ token, rest = [EvRequest (retry_request env method endpoint kwargs token)]).
Proof.
  unfold retry.
  pose proof (refresh_token_trace env s) as Ht.
  pose proof (refresh_token_identity env s) as [Hid _].
  destruct (_refresh_token env s) as [[[]|e] s2]; simpl in *.
  2:{ exists [], []. rewrite Ht. repeat split; by left. }
  destruct (access_token_added s2) as (mid & Hmid & Hread).
  unfold token_read in *. rewrite Hid in Hread.
  destruct (access_token env s2) as [[token|e] s3]; simpl in *.
  - exists mid, [EvRequest (retry_request env method endpoint kwargs token)].
    rewrite Hmid, Ht, <- !app_assoc. repeat split; eauto.
  - exists mid, []. rewrite Hmid, Ht, <- !app_assoc, app_nil_r.
    repeat split; auto.
Qed.

(** Every run of [_make_request]: a token read, then no request, the
    first request alone, or the first request, the forced POST, a
    token read and possibly the retry. *)
Lemma make_request_added (method endpoint : string) (kwargs : Kwargs) (s : St) :
  ∃ pre rest,
    trace (snd (_make_request env method endpoint kwargs s)) = trace s ++ pre ++ rest
    ∧ token_read (self s) pre
    ∧ (succeeded (fst (access_token env s)) → rest ≠ [])
    ∧ (rest = []
       ∨ ∃ token, rest = [EvRequest (first_request env method endpoint kwargs token)]
            ∨ ∃ mid tail,
                rest = EvRequest (first_request env method endpoint kwargs token)
                       :: EvPost (token_request (self s)) :: mid ++ tail
                ∧ token_read (self s) mid
                ∧ (tail = []
                   ∨ ∃ token', tail = [EvRequest (retry_request env method endpoint
                                                    kwargs token')])).
Proof.
  rewrite make_request_unfold, final_response_unfold.
  destruct (access_token_added s) as (pre & Hpre & Hread).
  pose proof (access_token_identity env s) as [Hid _].
  destruct (access_token env s) as [[token|e] s1]; simpl in *.
  2:{ exists pre, []. rewrite app_nil_r. split; [done|]. split; [done|].
      split; [done|]. by left. }
  set (q1 := first_request env method endpoint kwargs token).
  assert (Hone : ∀ s', trace s' = trace s1 ++ [EvRequest q1] →
            trace s' = trace s ++ pre ++ [EvRequest q1]
            ∧ token_read (self s) pre
            ∧ (True → [EvRequest q1] ≠ [])
            ∧ ([EvRequest q1] = []
               ∨ ∃ token0, [EvRequest q1]
                    = [EvRequest (first_request env method endpoint kwargs token0)]
                  ∨ ∃ mid tail,
                      [EvRequest q1]
                      = EvRequest (first_request env method endpoint kwargs token0)
                        :: EvPost (token_request (self s)) :: mid ++ tail
                      ∧ token_read (self s) mid
                      ∧ (tail = []
                         ∨ ∃ token', tail = [EvRequest (retry_request env method
                                                          endpoint kwargs token')]))).
  { intros s' Hs'. rewrite Hs', Hpre, <- app_assoc.
    split; [done|]. split; [done|]. split; [done|].
    right. exists token. by left. }
  destruct (api env _ q1) as [r1|msg]; simpl.
  2:{ exists pre, [EvRequest q1]. by apply (Hone (sent s1 q1)). }
  destruct (status_code r1 =? 401).
  2:{ exists pre, [EvRequest q1]. by apply (Hone (sent s1 q1)). }
  destruct (retry_added method endpoint kwargs (sent s1 q1))
    as (mid & tail & Ht & Hmid & Htail).
  unfold token_read in Hmid. simpl in Ht, Hmid. rewrite Hid in Ht, Hmid.
  exists pre, (EvRequest q1 :: EvPost (token_request (self s)) :: mid ++ tail).
  assert (Htrace : trace (snd (retry env method endpoint kwargs (sent s1 q1)))
                   = trace s ++ pre ++ EvRequest q1
                       :: EvPost (token_request (self s)) :: mid ++ tail).
  { rewrite Ht, Hpre, <- !app_assoc. reflexivity. }
  destruct (retry env method endpoint kwargs (sent s1 q1)) as [[r2|e] s'];
    simpl in *; (split; [exact Htrace|]); (split; [done|]); (split; [done|]);
    right; exists token; right; exists mid, tail; done.
Qed.

(** At most two requests, each for the URL and with the method and
    transport options of the call. *)
Lemma make_request_requests (method endpoint : string) (kwargs : Kwargs) (s : St) :
  let reqs := requests_of (added s (snd (_make_request env method endpoint kwargs s))) in
  (length reqs ≤ 2)%nat
  ∧ Forall (λ q, req_method q = method ∧ req_url q = GRAPH_URL +:+ endpoint
                 ∧ req_options q = kw_options kwargs) reqs
  ∧ (succeeded (fst (access_token env s)) → reqs ≠ []).
Proof.
  intros reqs. subst reqs.
  destruct (make_request_added method endpoint kwargs s)
    as (pre & rest & Ht & Hpre & Hsome & Hrest).
  rewrite (added_app _ _ _ Ht), requests_of_app.
  destruct (token_read_requests _ _ Hpre) as [-> _]. simpl.
  destruct Hrest as [->|(token & [->|(mid & tail & -> & Hmid & Htail)])].
  - split; [simpl; lia|]. split; [constructor|]. intros H. by apply Hsome in H.
  - split; [simpl; lia|]. split; [|done]. by repeat constructor.
  - change (requests_of (EvRequest ?q :: EvPost ?p :: ?l))
      with (q :: requests_of l).
    rewrite requests_of_app. destruct (token_read_requests _ _ Hmid) as [-> _].
    destruct Htail as [->|(token' & ->)]; simpl.
    + split; [lia|]. split; [|done]. by repeat constructor.
    + split; [lia|]. split; [|done]. by repeat constructor.
Qed.

End Traces.

(** ** The single retry *)

Section Retry.
Variable env : Env.

Lemma token_read_of_requests (s : St) (evs : list event) (token : pyval) :
  token_read_of env s evs token → requests_of evs = [] ∧ n_requests evs = 0%nat.
Proof.
  unfold token_read_of. destruct (stale _ _); intros [-> _]; done.
Qed.

(** A refresh followed by the return of the stored token, as the stale
    branch of [access_token] has it. *)
Lemma refresh_then_return (s0 s1 : St) (token : pyval) :
  match _refresh_token env s0 with
  | (Ok _, s2) => (Ok (_access_token (self s2)), s2)
  | (Raise e, s2) => (Raise e, s2)
  end = (Ok token, s1) →
  granted_token env (n_posts (trace s0)) (self s0) token
  ∧ trace s1 = trace s0 ++ [EvPost (token_request (self s0))].
Proof.
  destruct (_refresh_token env s0) as [[[]|e] s2] eqn:Hr; [|discriminate].
  intros [= <- <-].
  destruct (refresh_token_Ok_inv env s0 s2 Hr)
    as (r & entries & token & expiry & delta & Hi & Hst & Hj & Htok & _ & _ & ->).
  simpl. split; [|reflexivity]. by exists r, entries.
Qed.

(** A read of [access_token] that succeeds, in terms of the stored
    credential, the clock and the identity provider. *)
Lemma access_token_Ok_inv (s s1 : St) (token : pyval) :
  access_token env s = (Ok token, s1) →
  token_read_of env s (added s s1) token
  ∧ trace s1 = trace s ++ added s s1.
Proof.
  rewrite access_token_unfold, is_token_expired_unfold.
  unfold token_read_of, stale.
  destruct (_token_expiry (self s)) as [expiry|] eqn:Hexp.
  - destruct (truthy (_access_token (self s))) eqn:Htok; simpl.
    + destruct (dt_sub expiry SKEW) as [limit|e] eqn:Hsub; [|discriminate].
      apply datetime_of_Ok in Hsub. rewrite Hsub.
      destruct (micros expiry - SKEW <=? micros (clock env (ticks s))).
      * intros H. apply refresh_then_return in H as [Hg Ht]. simpl in Hg, Ht.
        rewrite (added_app _ _ _ Ht). done.
      * intros [= <- <-]. simpl. unfold added. simpl.
        rewrite drop_all, app_nil_r. done.
    + intros H. apply refresh_then_return in H as [Hg Ht].
      rewrite (added_app _ _ _ Ht). done.
  - rewrite orb_true_r.
    intros H. apply refresh_then_return in H as [Hg Ht].
    rewrite (added_app _ _ _ Ht). done.
Qed.

Variables method endpoint : string.
Variable kwargs : Kwargs.

(** A first request that is not answered 401 ends the call. *)
Lemma make_request_no_retry (s s1 : St) (token1 : pyval) (r1 : Response) :
  let q1 := first_request env method endpoint kwargs token1 in
  access_token env s = (Ok token1, s1) →
  api env (n_requests (trace s)) q1 = Responded r1 →
  status_code r1 ≠ 401 →
  ∃ pre,
    _make_request env method endpoint kwargs s = (checked r1, sent s1 q1)
    ∧ added s (sent s1 q1) = pre ++ [EvRequest q1]
    ∧ token_read_of env s pre token1
    ∧ requests_of (added s (sent s1 q1)) = [q1].
Proof.
  intros q1 Hat Hapi Hst.
  destruct (access_token_Ok_inv s s1 token1 Hat) as [Hread Hpre].
  destruct (token_read_of_requests _ _ _ Hread) as [Hreq Hn].
  rewrite make_request_unfold, final_response_unfold, Hat. simpl.
  rewrite Hpre, n_requests_app, Hn, Nat.add_0_r. fold q1. rewrite Hapi.
  apply Z.eqb_neq in Hst. rewrite Hst.
  assert (Hadded : added s (sent s1 q1) = added s s1 ++ [EvRequest q1]).
  { apply added_app. simpl. by rewrite Hpre at 1; rewrite <- app_assoc. }
  exists (added s s1). split; [reflexivity|].
  split; [exact Hadded|]. split; [exact Hread|].
  rewrite Hadded, requests_of_app, Hreq. reflexivity.
Qed.

(** A first request answered 401 is followed by the forced POST, the
    token read of the retry and the retry, whose response ends the
    call. *)
Lemma make_request_after_401 (s s1 s2 s3 : St) (token1 token2 : pyval)
    (r1 r2 : Response) :
  let p := token_request (self s) in
  let q1 := first_request env method endpoint kwargs token1 in
  let q2 := retry_request env method endpoint kwargs token2 in
  access_token env s = (Ok token1, s1) →
  api env (n_requests (trace s)) q1 = Responded r1 →
  status_code r1 = 401 →
  _refresh_token env (sent s1 q1) = (Ok tt, s2) →
  access_token env s2 = (Ok token2, s3) →
  api env (S (n_requests (trace s))) q2 = Responded r2 →
  ∃ pre mid,
    _make_request env method endpoint kwargs s = (checked r2, sent s3 q2)
    ∧ added s (sent s3 q2) = pre ++ [EvRequest q1; EvPost p] ++ mid ++ [EvRequest q2]
    ∧ token_read_of env s pre token1
    ∧ holds_grant env (n_posts (trace s1)) (clock env (ticks s1)) (self s2)
    ∧ ticks s2 = S (ticks s1)
    ∧ token_request (self s2) = p
    ∧ token_read_of env s2 mid token2
    ∧ requests_of (added s (sent s3 q2)) = [q1; q2].
Proof.
  intros p q1 q2 Hat Hapi1 Hst Hrf Hat2 Hapi2.
  destruct (access_token_Ok_inv s s1 token1 Hat) as [Hread Hpre].
  destruct (token_read_of_requests _ _ _ Hread) as [Hreq Hn].
  pose proof (access_token_identity env s) as [Hid _].
  rewrite Hat in Hid. simpl in Hid.
  destruct (refresh_token_Ok_inv env _ s2 Hrf)
    as (r & entries & token & expiry & delta & Hi & _ & Hj & Htok & Hd & Hm & Hs2).
  simpl in Hi, Hm, Hs2. rewrite Hid in Hs2. fold p in Hs2.
  assert (Hposts : n_posts (trace s1 ++ [EvRequest q1]) = n_posts (trace s1)).
  { rewrite n_posts_app. unfold n_posts at 2. simpl. lia. }
  rewrite Hposts in Hi.
  destruct (access_token_Ok_inv s2 s3 token2 Hat2) as [Hread2 Hmid].
  destruct (token_read_of_requests _ _ _ Hread2) as [Hreq2 Hn2].
  assert (Hcount : n_requests (trace s3) = S (n_requests (trace s))).
  { rewrite Hmid, n_requests_app, Hn2, Hs2. simpl.
    rewrite !n_requests_app, Hpre, n_requests_app, Hn.
    unfold n_requests at 2 3. simpl. lia. }
  assert (Hadded : added s (sent s3 q2)
                   = added s s1 ++ [EvRequest q1; EvPost p]
                       ++ added s2 s3 ++ [EvRequest q2]).
  { apply added_app. simpl. rewrite Hmid. rewrite Hs2 at 1. simpl.
    rewrite Hpre at 1. rewrite <- !app_assoc. reflexivity. }
  exists (added s s1), (added s2 s3).
  split.
  { assert (Hn1 : n_requests (trace s1) = n_requests (trace s)).
    { rewrite Hpre, n_requests_app, Hn. lia. }
    rewrite make_request_unfold, final_response_unfold, Hat. simpl.
    rewrite Hn1. fold q1. rewrite Hapi1, Hst. simpl.
    unfold retry. rewrite Hrf, Hat2.
    fold q2. rewrite Hcount, Hapi2. reflexivity. }
  split; [exact Hadded|]. split; [exact Hread|].
  split.
  { exists r, entries, delta, expiry. rewrite Hs2. simpl.
    split; [exact Hi|]. done. }
  split; [by rewrite Hs2|]. split; [rewrite Hs2; exact Hid|].
  split; [exact Hread2|].
  rewrite Hadded, !requests_of_app, Hreq, Hreq2. reflexivity.
Qed.

End Retry.

(** ** Headers and the single retry *)

(** C1: a call that carries the header [Accept: application/json] and is
    answered 401 then 200 sends the header with the first request and
    not with the retry, whose only header is [Authorization]. *)
Theorem retry_drops_caller_headers :
  ∃ r s' q1 q2,
    _make_request (sample_env [401; 200]) "GET" "/me/drive"
      (mkKwargs (Some {["Accept" := "application/json"]}) ∅) (fresh valid_client)
    = (Ok r, s')
    ∧ requests_of (trace s') = [q1; q2]
    ∧ req_headers q1 !! "Accept" = Some "application/json"
    ∧ req_headers q2 !! "Accept" = None
    ∧ req_headers q2 = {["Authorization" := "Bearer tok"]}.
Proof. do 4 eexists. vm_compute. repeat split. Qed.

(** The same in general: the retry carries the [Authorization] header and
    nothing else. *)
Lemma retry_request_headers (env : Env) (method endpoint : string)
    (kwargs : Kwargs) (token : pyval) (k : string) :
  k ≠ "Authorization" →
  req_headers (retry_request env method endpoint kwargs token) !! k = None.
Proof. intros Hk. simpl. unfold bearer. by rewrite lookup_singleton_ne. Qed.

(** In the first request the caller's entries win over the generated
    one. *)
Lemma first_request_headers (env : Env) (method endpoint : string)
    (kwargs : Kwargs) (token : pyval) (caller : gmap string string)
    (k v : string) :
  kw_headers kwargs = Some caller → caller !! k = Some v →
  req_headers (first_request env method endpoint kwargs token) !! k = Some v.
Proof.
  intros Hc Hk. simpl. rewrite Hc. simpl. by apply lookup_union_Some_l.
Qed.

(** Against a target API that answers 401 then 200, a call that starts
    with a valid credential
    - refreshes twice between its two requests when the tokens granted
      live one minute (the refresh the 401 forces, then the one of the
      retry's token read), and returns the 200 response;
    - makes no retry and raises when the identity provider cannot be
      reached for the forced refresh. *)
Lemma make_request_retry_not_unconditional :
  (∃ s' q1 q2,
      _make_request (short_lifetime_env [401; 200]) "GET" "/me/drive" no_kwargs
        (fresh valid_client) = (Ok (answer 200), s')
      ∧ added (fresh valid_client) s'
        = [EvRequest q1; EvPost (token_request valid_client);
           EvPost (token_request valid_client); EvRequest q2])
  ∧ (∃ s' q1,
      _make_request (idp_down_env [401; 200]) "GET" "/me/drive" no_kwargs
        (fresh valid_client) = (Raise (RequestException "connection refused"), s')
      ∧ added (fresh valid_client) s'
        = [EvRequest q1; EvPost (token_request valid_client)]).
Proof.
  split.
  - do 3 eexists. vm_compute. split; reflexivity.
  - do 2 eexists. vm_compute. split; reflexivity.
Qed.

(** C2, as the code has it: when the first request is answered 401 and
    the retry 200, and the token read before each request and the
    refresh between them succeed, the call returns the 200 response.  It
    has sent two requests, the second with the token read for the retry,
    and between them the POST that the 401 forces, after which the
    client holds what the identity provider granted in answer to it.
    Each token read adds one more POST exactly when the credential it
    finds is stale, and then returns the token granted in answer to that
    POST; otherwise it returns the stored token. *)
Theorem make_request_retry_succeeds (env : Env) (method endpoint : string)
    (kwargs : Kwargs) (s s1 s2 s3 : St) (token1 token2 : pyval)
    (r1 r2 : Response) :
  let p := token_request (self s) in
  let q1 := first_request env method endpoint kwargs token1 in
  let q2 := retry_request env method endpoint kwargs token2 in
  access_token env s = (Ok token1, s1) →
  api env (n_requests (trace s)) q1 = Responded r1 →
  status_code r1 = 401 →
  _refresh_token env (sent s1 q1) = (Ok tt, s2) →
  access_token env s2 = (Ok token2, s3) →
  api env (S (n_requests (trace s))) q2 = Responded r2 →
  status_code r2 = 200 →
  ∃ pre mid,
    _make_request env method endpoint kwargs s = (Ok r2, sent s3 q2)
    ∧ added s (sent s3 q2) = pre ++ [EvRequest q1; EvPost p] ++ mid ++ [EvRequest q2]
    ∧ token_read_of env s pre token1
    ∧ holds_grant env (n_posts (trace s1)) (clock env (ticks s1)) (self s2)
    ∧ ticks s2 = S (ticks s1)
    ∧ token_request (self s2) = p
    ∧ token_read_of env s2 mid token2
    ∧ requests_of (added s (sent s3 q2)) = [q1; q2].
Proof.
  intros p q1 q2 Hat Hapi1 Hst1 Hrf Hat2 Hapi2 Hst2.
  destruct (make_request_after_401 env method endpoint kwargs s s1 s2 s3
              token1 token2 r1 r2 Hat Hapi1 Hst1 Hrf Hat2 Hapi2)
    as (pre & mid & Hrun & Hrest).
  exists pre, mid. split; [|exact Hrest].
  rewrite Hrun. unfold checked, is_error_status. by rewrite Hst2.
Qed.

Lemma make_request_retry_succeeds_witness :
  let env := sample_env [401; 200] in
  let q1 := first_request env "GET" "/me/drive" no_kwargs (PStr "held") in
  let q2 := retry_request env "GET" "/me/drive" no_kwargs (PStr "tok") in
  ∃ s',
    _make_request env "GET" "/me/drive" no_kwargs (fresh valid_client)
    = (Ok (answer 200), s')
    ∧ added (fresh valid_client) s'
      = [EvRequest q1; EvPost (token_request valid_client); EvRequest q2].
Proof.
  intros env q1 q2.
  pose (s1 := snd (access_token env (fresh valid_client))).
  pose (s2 := snd (_refresh_token env (sent s1 q1))).
  pose (s3 := snd (access_token env s2)).
  destruct (make_request_retry_succeeds env "GET" "/me/drive" no_kwargs
              (fresh valid_client) s1 s2 s3 (PStr "held") (PStr "tok")
              (answer 401) (answer 200))
    as (pre & mid & Hrun & Hadded & Hpre & _ & _ & _ & Hmid & _).
  - vm_compute. reflexivity.
  - reflexivity.
  - reflexivity.
  - vm_compute. reflexivity.
  - vm_compute. reflexivity.
  - reflexivity.
  - reflexivity.
  - exists (sent s3 q2). split; [exact Hrun|].
    unfold q1, q2 in *. rewrite Hadded.
    assert (H0 : stale (self (fresh valid_client))
                   (clock env (ticks (fresh valid_client))) = false)
      by (vm_compute; reflexivity).
    assert (H2 : stale (self s2) (clock env (ticks s2)) = false)
      by (vm_compute; reflexivity).
    unfold token_read_of in Hpre, Hmid. rewrite H0 in Hpre. rewrite H2 in Hmid.
    destruct Hpre as [-> _]. destruct Hmid as [-> _]. reflexivity.
Defined.

(** C3, as the code has it: when the token read before the first
    request succeeds,
    - a first request answered 401 whose forced refresh and second
      token read succeed, and a retry answered 401 as well, end the
      call with the [HTTPError] of the second response, after two
      requests and, between them, the one POST that the 401 forces,
      followed by one more POST exactly when the credential just granted
      is stale at the token read of the retry;
    - a first request answered with any other status ends the call with
      that response ([HTTPError] for a 4xx or 5xx), after that one
      request and with nothing behind it.
    The token read before the first request adds one POST exactly when
    the stored credential is stale. *)
Theorem make_request_retry_bounded (env : Env) (method endpoint : string)
    (kwargs : Kwargs) (s s1 : St) (token1 : pyval) (r1 : Response) :
  let p := token_request (self s) in
  let q1 := first_request env method endpoint kwargs token1 in
  access_token env s = (Ok token1, s1) →
  api env (n_requests (trace s)) q1 = Responded r1 →
  (status_code r1 = 401 →
   ∀ (s2 s3 : St) (token2 : pyval) (r2 : Response),
     let q2 := retry_request env method endpoint kwargs token2 in
     _refresh_token env (sent s1 q1) = (Ok tt, s2) →
     access_token env s2 = (Ok token2, s3) →
     api env (S (n_requests (trace s))) q2 = Responded r2 →
     status_code r2 = 401 →
     ∃ pre mid,
       _make_request env method endpoint kwargs s
       = (Raise (HTTPError r2), sent s3 q2)
       ∧ added s (sent s3 q2)
         = pre ++ [EvRequest q1; EvPost p] ++ mid ++ [EvRequest q2]
       ∧ token_read_of env s pre token1
       ∧ holds_grant env (n_posts (trace s1)) (clock env (ticks s1)) (self s2)
       ∧ ticks s2 = S (ticks s1)
       ∧ token_request (self s2) = p
       ∧ token_read_of env s2 mid token2
       ∧ requests_of (added s (sent s3 q2)) = [q1; q2])
  ∧ (status_code r1 ≠ 401 →
     ∃ pre,
       _make_request env method endpoint kwargs s
       = (if is_error_status (status_code r1) then Raise (HTTPError r1) else Ok r1,
          sent s1 q1)
       ∧ added s (sent s1 q1) = pre ++ [EvRequest q1]
       ∧ token_read_of env s pre token1
       ∧ requests_of (added s (sent s1 q1)) = [q1]).
Proof.
  intros p q1 Hat Hapi1. split.
  - intros Hst1 s2 s3 token2 r2 q2 Hrf Hat2 Hapi2 Hst2.
    destruct (make_request_after_401 env method endpoint kwargs s s1 s2 s3
                token1 token2 r1 r2 Hat Hapi1 Hst1 Hrf Hat2 Hapi2)
      as (pre & mid & Hrun & Hrest).
    exists pre, mid. split; [|exact Hrest].
    rewrite Hrun. unfold checked, is_error_status. by rewrite Hst2.
  - intros Hst1.
    exact (make_request_no_retry env method endpoint kwargs s s1 token1 r1
             Hat Hapi1 Hst1).
Qed.

Lemma make_request_retry_bounded_witness :
  (let env := sample_env [401; 401] in
   let q1 := first_request env "GET" "/me/drive" no_kwargs (PStr "held") in
   let q2 := retry_request env "GET" "/me/drive" no_kwargs (PStr "tok") in
   ∃ s',
     _make_request env "GET" "/me/drive" no_kwargs (fresh valid_client)
     = (Raise (HTTPError (answer 401)), s')
     ∧ added (fresh valid_client) s'
       = [EvRequest q1; EvPost (token_request valid_client); EvRequest q2])
  ∧ (let env := idp_down_env [503] in
     let q1 := first_request env "GET" "/me/drive" no_kwargs (PStr "held") in
     ∃ s',
       _make_request env "GET" "/me/drive" no_kwargs (fresh valid_client)
       = (Raise (HTTPError (answer 503)), s')
       ∧ added (fresh valid_client) s' = [EvRequest q1]).
Proof.
  split.
  - intros env q1 q2.
    pose (s1 := snd (access_token env (fresh valid_client))).
    pose (s2 := snd (_refresh_token env (sent s1 q1))).
    pose (s3 := snd (access_token env s2)).
    destruct (proj1 (make_request_retry_bounded env "GET" "/me/drive" no_kwargs
                       (fresh valid_client) s1 (PStr "held") (answer 401)
                       ltac:(vm_compute; reflexivity) eq_refl)
                eq_refl s2 s3 (PStr "tok") (answer 401))
      as (pre & mid & Hrun & Hadded & Hpre & _ & _ & _ & Hmid & _).
    + vm_compute. reflexivity.
    + vm_compute. reflexivity.
    + reflexivity.
    + reflexivity.
    + exists (sent s3 q2). split; [exact Hrun|].
      unfold q1, q2 in *. rewrite Hadded.
      assert (H0 : stale (self (fresh valid_client))
                     (clock env (ticks (fresh valid_client))) = false)
        by (vm_compute; reflexivity).
      assert (H2 : stale (self s2) (clock env (ticks s2)) = false)
        by (vm_compute; reflexivity).
      unfold token_read_of in Hpre, Hmid. rewrite H0 in Hpre. rewrite H2 in Hmid.
      destruct Hpre as [-> _]. destruct Hmid as [-> _]. reflexivity.
  - intros env q1.
    pose (s1 := snd (access_token env (fresh valid_client))).
    destruct (proj2 (make_request_retry_bounded env "GET" "/me/drive" no_kwargs
                       (fresh valid_client) s1 (PStr "held") (answer 503)
                       ltac:(vm_compute; reflexivity) eq_refl))
      as (pre & Hrun & Hadded & Hpre & _).
    + discriminate.
    + exists (sent s1 q1). split; [exact Hrun|].
      unfold q1 in *. rewrite Hadded.
      assert (H0 : stale (self (fresh valid_client))
                     (clock env (ticks (fresh valid_client))) = false)
        by (vm_compute; reflexivity).
      unfold token_read_of in Hpre. rewrite H0 in Hpre.
      destruct Hpre as [-> _]. reflexivity.
Defined.

(** With one-hour tokens and a valid credential at the start, the forced
    POST is the only one of the call. *)
Example sample_retry_events :
  ∃ q1 q2,
    added (fresh valid_client)
      (snd (_make_request (sample_env [401; 200]) "GET" "/me/drive" no_kwargs
              (fresh valid_client)))
    = [EvRequest q1; EvPost (token_request valid_client); EvRequest q2].
Proof. do 2 eexists. vm_compute. reflexivity. Qed.

(** Two refreshes in one call: a valid credential at the start, both
    requests answered 401, and one-minute tokens.  The 401 forces a
    refresh and the token read of the retry, finding the new credential
    inside the skew window, refreshes again. *)
Lemma make_request_refreshes_twice :
  ∃ s',
    _make_request (short_lifetime_env [401; 401]) "GET" "/me/drive" no_kwargs
      (fresh valid_client) = (Raise (HTTPError (answer 401)), s')
    ∧ n_posts (added (fresh valid_client) s') = 2%nat
    ∧ n_requests (added (fresh valid_client) s') = 2%nat.
Proof. eexists. vm_compute. repeat split. Qed.

(** ** The final response decides the outcome *)

(** The response [final_response] yields is the transport's answer to the
    last request of the call. *)
Lemma final_response_last (env : Env) (method endpoint : string)
    (kwargs : Kwargs) (s s' : St) (r : Response) :
  final_response env method endpoint kwargs s = (Ok r, s') →
  ∃ before q, trace s' = before ++ [EvRequest q]
              ∧ api env (n_requests before) q = Responded r.
Proof.
  rewrite final_response_unfold.
  destruct (access_token env s) as [[token|e] s1]; [|discriminate]. simpl.
  destruct (api env _ _) as [r1|msg] eqn:Hapi; [|discriminate].
  destruct (status_code r1 =? 401).
  - unfold retry.
    destruct (_refresh_token env _) as [[[]|e] s2]; [|discriminate].
    destruct (access_token env s2) as [[token2|e] s3]; [|discriminate].
    destruct (api env (n_requests (trace s3)) _) as [r2|msg] eqn:Hapi2;
      [|discriminate].
    simpl. intros H; inversion H; subst. eauto.
  - intros H; inversion H; subst. eauto.
Qed.

(** C6, as the code has it: the call raises [HTTPError], carrying the
    final response, exactly when the final status is a 4xx or a 5xx;
    with any other final status, 2xx or not, it returns the response
    unchanged. *)
Theorem make_request_raises_iff_error_status (env : Env)
    (method endpoint : string) (kwargs : Kwargs) (s s' : St) (r : Response) :
  final_response env method endpoint kwargs s = (Ok r, s') →
  (∃ before q, trace s' = before ++ [EvRequest q]
               ∧ api env (n_requests before) q = Responded r)
  ∧ (400 ≤ status_code r < 600 →
     _make_request env method endpoint kwargs s = (Raise (HTTPError r), s'))
  ∧ (¬ (400 ≤ status_code r < 600) →
     _make_request env method endpoint kwargs s = (Ok r, s')).
Proof.
  intros Hfinal. split; [by eapply final_response_last|].
  rewrite make_request_unfold, Hfinal. unfold checked, is_error_status.
  split; intros Hst.
  - replace (400 <=? status_code r) with true by (symmetry; apply Z.leb_le; lia).
    replace (status_code r <? 600) with true by (symmetry; apply Z.ltb_lt; lia).
    reflexivity.
  - destruct (400 <=? status_code r) eqn:H1; [|reflexivity].
    destruct (status_code r <? 600) eqn:H2; [|reflexivity].
    apply Z.leb_le in H1. apply Z.ltb_lt in H2. lia.
Qed.

Lemma make_request_raises_iff_error_status_witness :
  _make_request (sample_env [503]) "GET" "/me/drive" no_kwargs (fresh valid_client)
  = (Raise (HTTPError (answer 503)),
     snd (final_response (sample_env [503]) "GET" "/me/drive" no_kwargs
            (fresh valid_client))).
Proof.
  apply (make_request_raises_iff_error_status (sample_env [503]) "GET" "/me/drive"
           no_kwargs (fresh valid_client) _ (answer 503)).
  - vm_compute. reflexivity.
  - simpl. lia.
Defined.

(** A final status outside 2xx that is no error for [raise_for_status]:
    a 304 comes back to the caller as an ordinary result. *)
Lemma make_request_returns_304 :
  ∃ s', _make_request (sample_env [304]) "GET" "/me/drive"
          (mkKwargs (Some {["If-None-Match" := "etag"]}) ∅) (fresh valid_client)
        = (Ok (answer 304), s')
        ∧ ¬ (200 ≤ status_code (answer 304) < 300).
Proof. eexists. split; [vm_compute; reflexivity|]. simpl. lia. Qed.

(** ** Endpoints of the file operations *)

(** What follows [_make_request] in a file operation reads the response
    and touches neither the client nor the trace. *)
Lemma bind_pure_snd {A B} (m : M A) (k : A → M B) (s : St) :
  (∀ a s1, snd (k a s1) = s1) → snd (bind m k s) = snd (m s).
Proof.
  intros Hk. unfold bind. destruct (m s) as [[a|e] s1]; [apply Hk|reflexivity].
Qed.

Lemma json_pure (r : Response) (s : St) : snd (json r s) = s.
Proof. unfold json. by destruct (json_body r). Qed.

Lemma py_get_pure (v : pyval) (key : string) (default : pyval) (s : St) :
  snd (py_get v key default s) = s.
Proof. unfold py_get. destruct v; try done. by destruct (assoc key entries). Qed.

Lemma json_get_pure (r : Response) (key : string) (default : pyval) (s : St) :
  snd (bind (json r) (λ body, py_get body key default) s) = s.
Proof.
  unfold bind. pose proof (json_pure r s) as H.
  destruct (json r s) as [[body|e] s1]; simpl in H; subst s1;
    [apply py_get_pure|reflexivity].
Qed.

Section Endpoints.
Variable env : Env.

Lemma make_request_targets {A} (endpoint : string) (kwargs : Kwargs)
    (k : Response → M A) (s : St) :
  (∀ r s1, snd (k r s1) = s1) →
  targets env (bind (_make_request env "GET" endpoint kwargs) k) s
          (GRAPH_URL +:+ endpoint).
Proof.
  intros Hk. unfold targets. rewrite bind_pure_snd by exact Hk.
  destruct (make_request_requests env "GET" endpoint kwargs s) as (_ & Hall & Hsome).
  split; [|exact Hsome].
  eapply List.Forall_impl; [|exact Hall]. by intros q (? & ? & _).
Qed.

Lemma list_files_targets (folder_id : option string) (s : St) :
  targets env (list_files env folder_id) s
    (GRAPH_URL +:+
     match folder_id with
     | Some id =>
         if negb (String.eqb id "")
         then "/users/" +:+ user_email (self s) +:+ "/drive/items/" +:+ id
              +:+ "/children"
         else "/users/" +:+ user_email (self s) +:+ "/drive/root/children"
     | None => "/users/" +:+ user_email (self s) +:+ "/drive/root/children"
     end).
Proof.
  apply (make_request_targets _ no_kwargs
           (λ response, bind (json response)
                             (λ body, py_get body "value" (PList [])))).
  intros r s1. apply json_get_pure.
Qed.

Lemma search_files_targets (query : string) (s : St) :
  targets env (search_files env query) s
    (GRAPH_URL +:+ "/users/" +:+ user_email (self s)
     +:+ "/drive/root/search(q='" +:+ query +:+ "')").
Proof.
  apply (make_request_targets _ no_kwargs
           (λ response, bind (json response)
                             (λ body, py_get body "value" (PList [])))).
  intros r s1. apply json_get_pure.
Qed.

Lemma get_file_by_path_targets (path : string) (s : St) :
  targets env (get_file_by_path env path) s
    (GRAPH_URL +:+ "/users/" +:+ user_email (self s)
     +:+ "/drive/root:" +:+ quote path).
Proof.
  apply (make_request_targets _ no_kwargs json). intros r s1. apply json_pure.
Qed.

Lemma get_file_metadata_targets (file_id : string) (s : St) :
  targets env (get_file_metadata env file_id) s
    (GRAPH_URL +:+ "/users/" +:+ user_email (self s)
     +:+ "/drive/items/" +:+ file_id).
Proof.
  apply (make_request_targets _ no_kwargs json). intros r s1. apply json_pure.
Qed.

Lemma download_file_targets (file_id : string) (s : St) :
  targets env (download_file env file_id) s
    (GRAPH_URL +:+ "/users/" +:+ user_email (self s)
     +:+ "/drive/items/" +:+ file_id +:+ "/content").
Proof.
  apply (make_request_targets _ (mkKwargs None {["allow_redirects" := PBool true]})
           (λ response, ret (content response))).
  reflexivity.
Qed.

End Endpoints.

(** C9: [list_files()] requests the root-children endpoint of the
    account, and [list_files(folder_id=X)], for a non-empty [X], the
    children endpoint of item [X]. *)
Theorem list_files_endpoint (env : Env) (s : St) (X : string) :
  X ≠ "" →
  targets env (list_files env None) s
    (GRAPH_URL +:+ "/users/" +:+ user_email (self s) +:+ "/drive/root/children")
  ∧ targets env (list_files env (Some X)) s
      (GRAPH_URL +:+ "/users/" +:+ user_email (self s) +:+ "/drive/items/" +:+ X
       +:+ "/children").
Proof.
  intros HX. split.
  - apply (list_files_targets env None).
  - pose proof (list_files_targets env (Some X) s) as H.
    apply String.eqb_neq in HX. simpl in H. rewrite HX in H. exact H.
Qed.

Lemma list_files_endpoint_witness :
  targets (sample_env []) (list_files (sample_env []) None) (fresh valid_client)
    "https://graph.microsoft.com/v1.0/users/user@contoso.com/drive/root/children"
  ∧ targets (sample_env []) (list_files (sample_env []) (Some "X")) (fresh valid_client)
      "https://graph.microsoft.com/v1.0/users/user@contoso.com/drive/items/X/children".
Proof.
  apply (list_files_endpoint (sample_env []) (fresh valid_client) "X"). discriminate.
Defined.

(** C10: [list_files(folder_id="")] requests the root-children endpoint,
    which is not the children endpoint of an item with the empty id. *)
Theorem list_files_empty_folder_id (env : Env) (s : St) :
  targets env (list_files env (Some "")) s
    (GRAPH_URL +:+ "/users/" +:+ user_email (self s) +:+ "/drive/root/children")
  ∧ GRAPH_URL +:+ "/users/" +:+ user_email (self s) +:+ "/drive/root/children"
    ≠ GRAPH_URL +:+ "/users/" +:+ user_email (self s) +:+ "/drive/items/" +:+ ""
      +:+ "/children".
Proof.
  split; [apply (list_files_targets env (Some ""))|].
  intros H. apply String.app_inj in H. apply String.app_inj in H.
  apply String.app_inj in H. discriminate.
Qed.

(** ** URL quoting in the file operations *)

Lemma string_forall_app (P : ascii → bool) (s t : string) :
  string_forall P (s +:+ t) = string_forall P s && string_forall P t.
Proof.
  induction s as [|c s IH]; [reflexivity|].
  simpl. by rewrite IH, andb_assoc.
Qed.

Lemma quote_byte_safe (c : ascii) : string_forall url_safe (quote_byte c) = true.
Proof. destruct c as [[] [] [] [] [] [] [] []]; reflexivity. Qed.

(** A quoted string holds no character but the safe ones: no space, no
    quote, no [#] or [?]. *)
Lemma quote_safe (s : string) : string_forall url_safe (quote s) = true.
Proof.
  induction s as [|c s IH]; [reflexivity|].
  simpl. by rewrite string_forall_app, quote_byte_safe, IH.
Qed.

(** [get_file_by_path] does quote: a path with spaces reaches the
    transport with its spaces escaped. *)
Lemma get_file_by_path_example :
  ∃ r s' q,
    get_file_by_path (sample_env []) "/Documents/report with spaces.pdf"
      (fresh valid_client) = (Ok r, s')
    ∧ requests_of (trace s') = [q]
    ∧ req_url q = "https://graph.microsoft.com/v1.0/users/user@contoso.com/drive/root:/Documents/report%20with%20spaces.pdf".
Proof. do 3 eexists. vm_compute. repeat split. Qed.

(** C4: [search_files("a b#c")] requests a URL that holds the query as
    given, space and [#] included, where quoting would have produced
    [a%20b%23c]. *)
Theorem search_files_query_not_quoted :
  ∃ r s' q,
    search_files (sample_env []) "a b#c" (fresh valid_client) = (Ok r, s')
    ∧ requests_of (trace s') = [q]
    ∧ req_url q = "https://graph.microsoft.com/v1.0/users/user@contoso.com/drive/root/search(q='a b#c')"
    ∧ string_forall url_safe "a b#c" = false
    ∧ quote "a b#c" = "a%20b%23c".
Proof. do 3 eexists. vm_compute. repeat split. Qed.

(** * Further properties of the dispatcher *)

Lemma n_posts_nil : n_posts [] = 0%nat.
Proof. reflexivity. Qed.

Lemma n_posts_cons_post (p : TokenRequest) (l : list event) :
  n_posts (EvPost p :: l) = S (n_posts l).
Proof. reflexivity. Qed.

Lemma n_posts_cons_request (q : Request) (l : list event) :
  n_posts (EvRequest q :: l) = n_posts l.
Proof. reflexivity. Qed.

Lemma n_requests_nil : n_requests [] = 0%nat.
Proof. reflexivity. Qed.

Lemma n_requests_cons_post (p : TokenRequest) (l : list event) :
  n_requests (EvPost p :: l) = n_requests l.
Proof. reflexivity. Qed.

Lemma n_requests_cons_request (q : Request) (l : list event) :
  n_requests (EvRequest q :: l) = S (n_requests l).
Proof. reflexivity. Qed.

Ltac count_events :=
  repeat first
    [ rewrite n_posts_app | rewrite n_requests_app
    | rewrite n_posts_cons_post | rewrite n_posts_cons_request
    | rewrite n_requests_cons_post | rewrite n_requests_cons_request
    | rewrite n_posts_nil | rewrite n_requests_nil ].

Lemma token_read_posts (c : OneDriveClient) (evs : list event) :
  token_read c evs → (n_posts evs ≤ 1)%nat.
Proof. intros [->| ->]; count_events; lia. Qed.

(** The requests of a run are none, the first request, or the first
    request and the retry. *)
Lemma make_request_request_list (env : Env) (method endpoint : string)
    (kwargs : Kwargs) (s : St) :
  let reqs := requests_of (added s (snd (_make_request env method endpoint kwargs s))) in
  reqs = []
  ∨ ∃ token, reqs = [first_request env method endpoint kwargs token]
      ∨ ∃ token', reqs = [first_request env method endpoint kwargs token;
                          retry_request env method endpoint kwargs token'].
Proof.
  intros reqs. subst reqs.
  destruct (make_request_added env method endpoint kwargs s)
    as (pre & rest & Ht & Hpre & _ & Hrest).
  rewrite (added_app _ _ _ Ht), requests_of_app.
  destruct (token_read_requests _ _ Hpre) as [-> _]. simpl.
  destruct Hrest as [->|(token & [->|(mid & tail & -> & Hmid & Htail)])].
  - by left.
  - right. exists token. by left.
  - change (requests_of (EvRequest ?q :: EvPost ?p :: ?l))
      with (q :: requests_of l).
    rewrite requests_of_app. destruct (token_read_requests _ _ Hmid) as [-> _].
    destruct Htail as [->|(token' & ->)]; simpl.
    + right. exists token. by left.
    + right. exists token. right. by exists token'.
Qed.

(** X1: whatever the identity provider, the target API and the clock do,
    one call of [_make_request] sends at most two requests to the target
    API and at most three POSTs to the identity provider, every POST
    being the client's own token request. *)
Theorem make_request_effects_bounded (env : Env) (method endpoint : string)
    (kwargs : Kwargs) (s : St) :
  let evs := added s (snd (_make_request env method endpoint kwargs s)) in
  (n_requests evs ≤ 2)%nat
  ∧ (n_posts evs ≤ 3)%nat
  ∧ Forall (λ e, ∀ p, e = EvPost p → p = token_request (self s)) evs.
Proof.
  intros evs. subst evs.
  destruct (make_request_added env method endpoint kwargs s)
    as (pre & rest & Ht & Hpre & _ & Hrest).
  rewrite (added_app _ _ _ Ht).
  destruct (token_read_requests _ _ Hpre) as [_ Hpr].
  pose proof (token_read_posts _ _ Hpre) as Hp.
  assert (Hown : ∀ evs', token_read (self s) evs' →
            Forall (λ e, ∀ p, e = EvPost p → p = token_request (self s)) evs').
  { intros evs' [->| ->]; repeat constructor. by intros p [= <-]. }
  destruct Hrest as [->|(token & [->|(mid & tail & -> & Hmid & Htail)])].
  - count_events. rewrite app_nil_r. split; [lia|]. split; [lia|]. by apply Hown.
  - count_events. split; [lia|]. split; [lia|].
    apply Forall_app. split; [by apply Hown|]. repeat constructor. discriminate.
  - pose proof (token_read_posts _ _ Hmid) as Hm.
    destruct (token_read_requests _ _ Hmid) as [_ Hmr].
    assert (Htl : (n_requests tail ≤ 1)%nat ∧ n_posts tail = 0%nat
                  ∧ Forall (λ e, ∀ p, e = EvPost p → p = token_request (self s)) tail).
    { destruct Htail as [->|(token' & ->)]; count_events;
        (split; [lia|]); (split; [lia|]); repeat constructor. discriminate. }
    destruct Htl as (Htr & Htp & Htown).
    count_events. split; [lia|]. split; [lia|].
    apply Forall_app. split; [by apply Hown|].
    constructor; [discriminate|]. constructor; [by intros p [= <-]|].
    apply Forall_app. split; [by apply Hown|exact Htown].
Qed.

(** X2: every request a call sends, the retry included, has the method,
    the URL (base URL followed by the endpoint) and the transport options
    of the call, and carries an [Authorization] header. *)
Theorem make_request_requests_uniform (env : Env) (method endpoint : string)
    (kwargs : Kwargs) (s : St) :
  Forall (λ q, req_method q = method
               ∧ req_url q = GRAPH_URL +:+ endpoint
               ∧ req_options q = kw_options kwargs
               ∧ is_Some (req_headers q !! "Authorization"))
         (requests_of (added s (snd (_make_request env method endpoint kwargs s)))).
Proof.
  assert (Hfirst : ∀ token,
             is_Some (req_headers (first_request env method endpoint kwargs token)
                      !! "Authorization")).
  { intros token. simpl. apply lookup_union_is_Some. right.
    unfold bearer. rewrite lookup_singleton_eq. by eexists. }
  assert (Hretry : ∀ token,
             is_Some (req_headers (retry_request env method endpoint kwargs token)
                      !! "Authorization")).
  { intros token. simpl. unfold bearer. rewrite lookup_singleton_eq. by eexists. }
  destruct (make_request_request_list env method endpoint kwargs s)
    as [->|(token & [->|(token' & ->)])]; repeat constructor; auto.
Qed.

(** ** Failures on the way to the final response *)

Lemma access_token_returns_stored (env : Env) (s s' : St) (token : pyval) :
  access_token env s = (Ok token, s') → token = _access_token (self s').
Proof.
  rewrite access_token_unfold.
  destruct (_is_token_expired env s) as [[[|]|e] s1]; [| |discriminate].
  - destruct (_refresh_token env s1) as [[[]|e] s2]; [|discriminate].
    by intros [= <- <-].
  - by intros [= <- <-].
Qed.

(** X3: when the token cannot be read (a refresh that fails, an expiry
    the skew cannot be subtracted from), [_make_request] raises the same
    exception and sends nothing to the target API. *)
Theorem make_request_needs_token (env : Env) (method endpoint : string)
    (kwargs : Kwargs) (s s1 : St) (e : exn) :
  access_token env s = (Raise e, s1) →
  _make_request env method endpoint kwargs s = (Raise e, s1)
  ∧ n_requests (added s s1) = 0%nat.
Proof.
  intros Hat. rewrite make_request_unfold, final_response_unfold, Hat.
  split; [reflexivity|].
  destruct (access_token_added env s) as (pre & Hpre & Hread).
  rewrite Hat in Hpre. simpl in Hpre. rewrite (added_app _ _ _ Hpre).
  by destruct (token_read_requests _ _ Hread).
Qed.

Lemma make_request_needs_token_witness :
  ∃ s1,
    _make_request (refusing_env [200]) "GET" "/me/drive" no_kwargs (fresh sample_client)
    = (Raise (HTTPError (answer 401)), s1)
    ∧ n_requests (added (fresh sample_client) s1) = 0%nat.
Proof.
  eexists.
  apply (make_request_needs_token (refusing_env [200]) "GET" "/me/drive" no_kwargs
           (fresh sample_client)).
  vm_compute. reflexivity.
Defined.

(** X4: a transport failure of the first request (connection error,
    timeout) reaches the caller as it is: the call sends that one
    request, forces no refresh and does not retry. *)
Theorem make_request_transport_failure (env : Env) (method endpoint : string)
    (kwargs : Kwargs) (s : St) (msg : string) :
  succeeded (fst (access_token env s)) →
  (∀ q, api env (n_requests (trace s)) q = Failed msg) →
  ∃ s' pre token,
    _make_request env method endpoint kwargs s = (Raise (RequestException msg), s')
    ∧ added s s' = pre ++ [EvRequest (first_request env method endpoint kwargs token)]
    ∧ token_read (self s) pre.
Proof.
  intros Hok Hapi.
  destruct (access_token_added env s) as (pre & Hpre & Hread).
  rewrite make_request_unfold, final_response_unfold.
  destruct (access_token env s) as [[token|e] s1]; [|done]. simpl in *.
  destruct (token_read_requests _ _ Hread) as [_ Hn].
  rewrite Hpre, n_requests_app, Hn, Nat.add_0_r, Hapi.
  eexists _, pre, token. split; [reflexivity|]. split; [|done].
  apply added_app. simpl. by rewrite Hpre, <- app_assoc.
Qed.

Lemma make_request_transport_failure_witness :
  ∃ s' pre token,
    _make_request unreachable_env "GET" "/me/drive" no_kwargs (fresh valid_client)
    = (Raise (RequestException "connection refused"), s')
    ∧ added (fresh valid_client) s'
      = pre ++ [EvRequest (first_request unreachable_env "GET" "/me/drive"
                             no_kwargs token)]
    ∧ token_read valid_client pre.
Proof.
  apply (make_request_transport_failure unreachable_env "GET" "/me/drive" no_kwargs
           (fresh valid_client) "connection refused").
  - vm_compute. exact I.
  - intros q. reflexivity.
Defined.

(** X5: when the refresh forced by a 401 fails, the call raises the
    exception of the refresh: the caller does not see the 401 response,
    and no second request is sent. *)
Theorem make_request_refresh_failure (env : Env) (method endpoint : string)
    (kwargs : Kwargs) (s s1 s2 : St) (token : pyval) (r1 : Response) (e : exn) :
  let q1 := first_request env method endpoint kwargs token in
  access_token env s = (Ok token, s1) →
  api env (n_requests (trace s1)) q1 = Responded r1 →
  status_code r1 = 401 →
  _refresh_token env (sent s1 q1) = (Raise e, s2) →
  _make_request env method endpoint kwargs s = (Raise e, s2)
  ∧ requests_of (added s s2) = [q1]
  ∧ ∃ before, added s s2 = before ++ [EvPost (token_request (self s))].
Proof.
  intros q1 Hat Hapi Hst Href.
  rewrite make_request_unfold, final_response_unfold, Hat. simpl.
  fold q1. rewrite Hapi, Hst. simpl. unfold retry. rewrite Href.
  split; [reflexivity|].
  destruct (access_token_added env s) as (pre & Hpre & Hread).
  pose proof (access_token_identity env s) as [Hid _].
  rewrite Hat in Hpre, Hid. simpl in Hpre, Hid.
  pose proof (refresh_token_trace env (sent s1 q1)) as Ht.
  rewrite Href in Ht. simpl in Ht. rewrite Hid, Hpre, <- !app_assoc in Ht.
  rewrite (added_app _ _ _ Ht).
  destruct (token_read_requests _ _ Hread) as [Hreq _].
  split.
  - by rewrite requests_of_app, Hreq.
  - exists (pre ++ [EvRequest q1]). by rewrite <- app_assoc.
Qed.

Lemma make_request_refresh_failure_witness :
  ∃ s2 q1,
    _make_request (refusing_env [401]) "GET" "/me/drive" no_kwargs (fresh valid_client)
    = (Raise (HTTPError (answer 401)), s2)
    ∧ requests_of (added (fresh valid_client) s2) = [q1]
    ∧ ∃ before, added (fresh valid_client) s2
                = before ++ [EvPost (token_request valid_client)].
Proof.
  do 2 eexists.
  eapply (make_request_refresh_failure (refusing_env [401]) "GET" "/me/drive"
            no_kwargs (fresh valid_client) _ _ (PStr "held") (answer 401)).
  - lazy. reflexivity.
  - reflexivity.
  - reflexivity.
  - lazy. reflexivity.
Defined.

(** X6: when the call obtains a final response and the caller supplied no
    [Authorization] header of its own, the last request sent carries
    [Bearer] followed by the token the client holds at the end of the
    call. *)
Theorem final_request_carries_stored_token (env : Env) (method endpoint : string)
    (kwargs : Kwargs) (s s' : St) (r : Response) :
  final_response env method endpoint kwargs s = (Ok r, s') →
  default ∅ (kw_headers kwargs) !! "Authorization" = None →
  ∃ earlier q, requests_of (added s s') = earlier ++ [q]
       ∧ req_headers q !! "Authorization"
         = Some ("Bearer " +:+ py_str env (_access_token (self s'))).
Proof.
  rewrite final_response_unfold. intros Hfinal Hcaller.
  destruct (access_token_added env s) as (pre & Hpre & Hread).
  destruct (access_token env s) as [[token|e] s1] eqn:Hat; [|discriminate].
  simpl in Hfinal, Hpre. apply access_token_returns_stored in Hat.
  set (q1 := first_request env method endpoint kwargs token) in *.
  destruct (api env _ q1) as [r1|msg]; [|discriminate].
  destruct (status_code r1 =? 401).
  - unfold retry in Hfinal.
    pose proof (refresh_token_trace env (sent s1 q1)) as Ht2.
    destruct (_refresh_token env (sent s1 q1)) as [[[]|e] s2]; [|discriminate].
    destruct (access_token_added env s2) as (mid & Hmid & Hmidr).
    destruct (access_token env s2) as [[token2|e] s3] eqn:Hat2; [|discriminate].
    apply access_token_returns_stored in Hat2. simpl in *.
    set (q2 := retry_request env method endpoint kwargs token2) in *.
    inversion Hfinal; subst s'; clear Hfinal.
    exists [q1], q2. split.
    + assert (Htrace : trace (sent s3 q2)
                       = trace s ++ (pre ++ [EvRequest q1]
                                     ++ [EvPost (token_request (self s1))] ++ mid)
                                 ++ [EvRequest q2]).
      { simpl. rewrite Hmid, Ht2, Hpre, <- !app_assoc. reflexivity. }
      rewrite (added_app _ _ _ Htrace), !requests_of_app.
      destruct (token_read_requests _ _ Hread) as [-> _].
      destruct (token_read_requests _ _ Hmidr) as [-> _]. reflexivity.
    + simpl. unfold bearer. rewrite lookup_singleton_eq, Hat2. reflexivity.
  - inversion Hfinal; subst s'; clear Hfinal.
    exists [], q1. split.
    + assert (Htrace : trace (sent s1 q1) = trace s ++ pre ++ [EvRequest q1]).
      { simpl. by rewrite Hpre, <- app_assoc. }
      rewrite (added_app _ _ _ Htrace), requests_of_app.
      by destruct (token_read_requests _ _ Hread) as [-> _].
    + simpl. rewrite lookup_union_r by exact Hcaller.
      unfold bearer. rewrite lookup_singleton_eq, Hat. reflexivity.
Qed.

Lemma final_request_carries_stored_token_witness :
  ∃ earlier q,
    requests_of (added (fresh valid_client)
                   (snd (final_response (sample_env [401; 200]) "GET" "/me/drive"
                           no_kwargs (fresh valid_client)))) = earlier ++ [q]
    ∧ req_headers q !! "Authorization" = Some "Bearer tok".
Proof.
  apply (final_request_carries_stored_token (sample_env [401; 200]) "GET"
           "/me/drive" no_kwargs (fresh valid_client)
           (snd (final_response (sample_env [401; 200]) "GET" "/me/drive"
                   no_kwargs (fresh valid_client)))
           (answer 200)).
  - vm_compute. reflexivity.
  - reflexivity.
Defined.

(** ** The identity of the client *)

Lemma refresh_token_keeps_identity (env : Env) (s : St) :
  identity (self (snd (_refresh_token env s))) = identity (self s).
Proof. rewrite refresh_token_unfold; simpl. repeat case_match; reflexivity. Qed.

Lemma access_token_keeps_identity (env : Env) (s : St) :
  identity (self (snd (access_token env s))) = identity (self s).
Proof.
  rewrite access_token_unfold.
  pose proof (is_token_expired_frame env s) as [Hself _].
  destruct (_is_token_expired env s) as [[[|]|e] s1]; simpl in *;
    rewrite <- ?Hself; auto.
  pose proof (refresh_token_keeps_identity env s1) as Hid.
  destruct (_refresh_token env s1) as [[[]|e] s2]; simpl in *; exact Hid.
Qed.

Lemma make_request_keeps_identity (env : Env) (method endpoint : string)
    (kwargs : Kwargs) (s : St) :
  identity (self (snd (_make_request env method endpoint kwargs s)))
  = identity (self s).
Proof.
  rewrite make_request_unfold, final_response_unfold.
  pose proof (access_token_keeps_identity env s) as H1.
  destruct (access_token env s) as [[token|e] s1]; simpl in *; [|exact H1].
  set (q1 := first_request env method endpoint kwargs token).
  destruct (api env _ q1) as [r1|msg]; simpl; [|exact H1].
  destruct (status_code r1 =? 401); [|exact H1].
  unfold retry.
  pose proof (refresh_token_keeps_identity env (sent s1 q1)) as H2.
  destruct (_refresh_token env (sent s1 q1)) as [[[]|e] s2]; simpl in *;
    [|by rewrite H2].
  pose proof (access_token_keeps_identity env s2) as H3.
  destruct (access_token env s2) as [[token2|e] s3]; simpl in *;
    [destruct (of_reply _); simpl|]; by rewrite H3, H2.
Qed.

(** X7: no call changes the identity the client was constructed with:
    after [_make_request] and after each of the five file operations,
    tenant, client id, client secret and user email are what they
    were, whether the call succeeded or raised. *)
Theorem operations_keep_identity (env : Env) (s : St) :
  (∀ method endpoint kwargs,
     identity (self (snd (_make_request env method endpoint kwargs s)))
     = identity (self s))
  ∧ (∀ folder_id, identity (self (snd (list_files env folder_id s))) = identity (self s))
  ∧ (∀ file_id, identity (self (snd (get_file_metadata env file_id s)))
                = identity (self s))
  ∧ (∀ file_id, identity (self (snd (download_file env file_id s)))
                = identity (self s))
  ∧ (∀ query, identity (self (snd (search_files env query s))) = identity (self s))
  ∧ (∀ path, identity (self (snd (get_file_by_path env path s))) = identity (self s)).
Proof.
  split; [intros; apply make_request_keeps_identity|].
  split; [|split; [|split; [|split]]]; intros arg.
  - unfold list_files, bind at 1, get_self.
    rewrite bind_pure_snd by (intros; apply json_get_pure).
    apply make_request_keeps_identity.
  - unfold get_file_metadata, bind at 1, get_self.
    rewrite bind_pure_snd by (intros; apply json_pure).
    apply make_request_keeps_identity.
  - unfold download_file, bind at 1, get_self.
    rewrite bind_pure_snd by reflexivity.
    apply make_request_keeps_identity.
  - unfold search_files, bind at 1, get_self.
    rewrite bind_pure_snd by (intros; apply json_get_pure).
    apply make_request_keeps_identity.
  - unfold get_file_by_path, bind at 1, get_self.
    rewrite bind_pure_snd by (intros; apply json_pure).
    apply make_request_keeps_identity.
Qed.

(** X8: a client that holds no credential (no truthy token, or no expiry;
    a newly constructed client is one) starts every call with a POST of
    its token request, and when that refresh fails the call raises the
    exception of the refresh and has done nothing else. *)
Theorem no_credential_refreshes_first (env : Env) (method endpoint : string)
    (kwargs : Kwargs) (s : St) :
  no_credential (self s) →
  (∃ rest, added s (snd (_make_request env method endpoint kwargs s))
           = EvPost (token_request (self s)) :: rest)
  ∧ (∀ e, fst (_refresh_token env s) = Raise e →
          _make_request env method endpoint kwargs s
          = (Raise e, snd (_refresh_token env s))
          ∧ added s (snd (_refresh_token env s)) = [EvPost (token_request (self s))]).
Proof.
  intros Hnone.
  assert (Hexp : _is_token_expired env s = (Ok true, s)).
  { rewrite is_token_expired_unfold.
    destruct (_token_expiry (self s)) as [expiry|] eqn:He; [|reflexivity].
    destruct Hnone as [->|H]; [reflexivity|congruence]. }
  assert (Hat : access_token env s
                = match _refresh_token env s with
                  | (Ok _, s2) => (Ok (_access_token (self s2)), s2)
                  | (Raise e, s2) => (Raise e, s2)
                  end).
  { by rewrite access_token_unfold, Hexp. }
  pose proof (refresh_token_trace env s) as Ht.
  split.
  - destruct (make_request_added env method endpoint kwargs s)
      as (pre & rest & Htrace & Hpre & _ & _).
    destruct (access_token_added env s) as (pre' & Hpre' & _).
    assert (Hfirst : trace (snd (access_token env s))
                     = trace s ++ [EvPost (token_request (self s))]).
    { rewrite Hat. by destruct (_refresh_token env s) as [[[]|e] s2]. }
    rewrite make_request_unfold, final_response_unfold in Htrace |- *.
    destruct (access_token env s) as [[token|e] s1]; simpl in *.
    + set (q1 := first_request env method endpoint kwargs token) in *.
      destruct (api env _ q1) as [r1|msg]; simpl in *.
      * destruct (status_code r1 =? 401).
        -- destruct (retry_added env method endpoint kwargs (sent s1 q1))
             as (mid & tail & Hr & _ & _).
           simpl in Hr. rewrite Hfirst, <- !app_assoc in Hr.
           destruct (retry env method endpoint kwargs (sent s1 q1)) as [r2 s'].
           simpl in *. destruct r2; eexists; apply added_app; exact Hr.
        -- eexists. apply added_app. simpl. rewrite Hfirst, <- app_assoc.
           reflexivity.
      * eexists. apply added_app. simpl. rewrite Hfirst, <- app_assoc. reflexivity.
    + exists []. apply added_app. exact Hfirst.
  - intros e He. rewrite make_request_unfold, final_response_unfold, Hat.
    destruct (_refresh_token env s) as [[[]|e'] s2]; simpl in *; [discriminate|].
    inversion He; subst e'. split; [reflexivity|]. by apply added_app.
Qed.

Lemma no_credential_refreshes_first_witness :
  (∃ rest, added (fresh sample_client)
             (snd (_make_request (refusing_env []) "GET" "/me/drive" no_kwargs
                     (fresh sample_client)))
           = EvPost (token_request sample_client) :: rest)
  ∧ (∀ e, fst (_refresh_token (refusing_env []) (fresh sample_client)) = Raise e →
          _make_request (refusing_env []) "GET" "/me/drive" no_kwargs
            (fresh sample_client)
          = (Raise e, snd (_refresh_token (refusing_env []) (fresh sample_client)))
          ∧ added (fresh sample_client)
              (snd (_refresh_token (refusing_env []) (fresh sample_client)))
            = [EvPost (token_request sample_client)]).
Proof.
  apply (no_credential_refreshes_first (refusing_env []) "GET" "/me/drive"
           no_kwargs (fresh sample_client)).
  left. reflexivity.
Defined.

(** * Further properties of the credential manager *)

(** X9: a refresh that raises never assigns the expiry.  It leaves the
    client as it was, except when the exception is the [TypeError],
    [ValueError] or [OverflowError] of an [expires_in] that cannot be
    turned into an expiry: then the token of the body has already
    replaced the stored one. *)
Theorem refresh_token_failure_effects (env : Env) (s s' : St) (e : exn) :
  _refresh_token env s = (Raise e, s') →
  _token_expiry (self s') = _token_expiry (self s)
  ∧ trace s' = trace s ++ [EvPost (token_request (self s))]
  ∧ (self s' = self s
     ∨ (e = TypeError ∨ e = ValueError ∨ e = OverflowError)
       ∧ ∃ r entries token,
           idp env (n_posts (trace s)) (token_request (self s)) = Responded r
           ∧ json_body r = Some (PDict entries)
           ∧ assoc "access_token" entries = Some token
           ∧ self s' = with_access_token (self s) token).
Proof.
  intros H. pose proof (refresh_token_trace env s) as Ht.
  rewrite H in Ht. simpl in Ht. revert H.
  rewrite refresh_token_unfold. simpl.
  destruct (idp env _ _) as [r|msg] eqn:Hr; [|intros [= <- <-]; auto].
  destruct (is_error_status _); [intros [= <- <-]; auto|].
  destruct (json_body r) as [[| | | | | |entries]|] eqn:Hj;
    try (intros [= <- <-]; by auto).
  destruct (assoc "access_token" entries) as [token|] eqn:Htok;
    [|intros [= <- <-]; auto].
  destruct (timedelta_seconds _) as [delta|] eqn:Hdelta.
  - destruct (dt_add _ _) as [expiry|] eqn:Hadd; [discriminate|].
    apply datetime_of_Raise in Hadd as [-> _]. intros [= <- <-]. simpl.
    split; [reflexivity|]. split; [exact Ht|]. right. split; [by right; right|].
    by exists r, entries, token.
  - intros [= <- <-]. simpl.
    split; [reflexivity|]. split; [exact Ht|]. right. split.
    + by apply timedelta_seconds_Raise in Hdelta.
    + by exists r, entries, token.
Qed.

Lemma refresh_token_failure_effects_witness :
  let s := fresh valid_client in
  let s' := snd (_refresh_token (refusing_env []) s) in
  _token_expiry (self s') = _token_expiry (self s)
  ∧ trace s' = trace s ++ [EvPost (token_request (self s))]
  ∧ (self s' = self s
     ∨ (HTTPError (answer 401) = TypeError ∨ HTTPError (answer 401) = ValueError
        ∨ HTTPError (answer 401) = OverflowError)
       ∧ ∃ r entries token,
           idp (refusing_env []) (n_posts (trace s)) (token_request (self s))
           = Responded r
           ∧ json_body r = Some (PDict entries)
           ∧ assoc "access_token" entries = Some token
           ∧ self s' = with_access_token (self s) token).
Proof.
  intros s s'.
  apply (refresh_token_failure_effects (refusing_env []) s s' (HTTPError (answer 401))).
  lazy. reflexivity.
Defined.

(** X10: a refresh that succeeded was answered with a status that is no
    4xx or 5xx and a body that is a JSON object with an [access_token]
    entry; it has stored that entry as the token, whatever its type,
    together with an expiry, and has read the clock once and posted
    once. *)
Theorem refresh_token_success_effects (env : Env) (s s' : St) :
  _refresh_token env s = (Ok tt, s') →
  ∃ r entries token expiry,
    idp env (n_posts (trace s)) (token_request (self s)) = Responded r
    ∧ ¬ (400 ≤ status_code r < 600)
    ∧ json_body r = Some (PDict entries)
    ∧ assoc "access_token" entries = Some token
    ∧ _access_token (self s') = token
    ∧ _token_expiry (self s') = Some expiry
    ∧ ticks s' = S (ticks s)
    ∧ trace s' = trace s ++ [EvPost (token_request (self s))].
Proof.
  intros H.
  destruct (refresh_token_Ok_inv env s s' H)
    as (r & entries & token & expiry & n & Hr & Hst & Hj & Htok & _ & _ & ->).
  exists r, entries, token, expiry. simpl.
  split; [exact Hr|]. split; [|done].
  unfold is_error_status in Hst. intros [H1 H2].
  apply Z.leb_le in H1. apply Z.ltb_lt in H2. rewrite H1, H2 in Hst. discriminate.
Qed.

Lemma refresh_token_success_effects_witness :
  ∃ r entries token expiry,
    idp (sample_env []) (n_posts (trace (fresh sample_client)))
      (token_request (self (fresh sample_client))) = Responded r
    ∧ ¬ (400 ≤ status_code r < 600)
    ∧ json_body r = Some (PDict entries)
    ∧ assoc "access_token" entries = Some token
    ∧ _access_token (self (snd (_refresh_token (sample_env []) (fresh sample_client))))
      = token
    ∧ _token_expiry (self (snd (_refresh_token (sample_env []) (fresh sample_client))))
      = Some expiry
    ∧ ticks (snd (_refresh_token (sample_env []) (fresh sample_client)))
      = S (ticks (fresh sample_client))
    ∧ trace (snd (_refresh_token (sample_env []) (fresh sample_client)))
      = trace (fresh sample_client)
        ++ [EvPost (token_request (self (fresh sample_client)))].
Proof.
  apply (refresh_token_success_effects (sample_env []) (fresh sample_client)).
  lazy. reflexivity.
Defined.



(** X12: a truthy token granted for more than 300 seconds is reused: as
    long as the clock reads less than the time of the refresh plus the
    lifetime minus 300 seconds, the next read of [access_token] returns
    the token and contacts nobody. *)
Theorem long_lived_token_reused (env : Env) (s s' : St) (r : Response)
    (entries : list (string * pyval)) (n : Z) :
  _refresh_token env s = (Ok tt, s') →
  idp env (n_posts (trace s)) (token_request (self s)) = Responded r →
  json_body r = Some (PDict entries) →
  int_of (default (PInt 3600) (assoc "expires_in" entries)) = Some n →
  truthy (_access_token (self s')) = true →
  micros (clock env (S (ticks s))) < micros (clock env (ticks s)) + (n - 300) * 1000000 →
  access_token env s'
  = (Ok (_access_token (self s')), mkSt (self s') (S (ticks s')) (trace s')).
Proof.
  intros H Hr Hj Hn Htruthy Hclock.
  destruct (refresh_token_Ok_inv env s s' H)
    as (r' & entries' & token & expiry & delta & Hr' & _ & Hj' & _ & Hd & Hm & ->).
  rewrite Hr in Hr'. inversion Hr'; subst r'.
  rewrite Hj in Hj'. inversion Hj'; subst entries'.
  apply (timedelta_seconds_int _ n) in Hd; [subst delta|exact Hn].
  simpl in Htruthy.
  rewrite access_token_unfold, is_token_expired_unfold. simpl. rewrite Htruthy.
  pose proof (micros_bounds expiry).
  pose proof (micros_bounds (clock env (S (ticks s)))).
  destruct (datetime_of_in_range (micros expiry - SKEW)) as (limit & Hl & Hlm).
  { unfold SKEW in *. lia. }
  unfold dt_sub. rewrite Hl. simpl.
  replace (micros limit <=? micros (clock env (S (ticks s)))) with false;
    [reflexivity|].
  symmetry. apply Z.leb_gt. unfold SKEW in *. lia.
Qed.

Lemma long_lived_token_reused_witness :
  access_token (ticking_env 3600)
    (snd (_refresh_token (ticking_env 3600) (fresh sample_client)))
  = (Ok (PStr "tok"),
     mkSt (self (snd (_refresh_token (ticking_env 3600) (fresh sample_client))))
          2
          (trace (snd (_refresh_token (ticking_env 3600) (fresh sample_client))))).
Proof.
  apply (long_lived_token_reused (ticking_env 3600) (fresh sample_client)
           (snd (_refresh_token (ticking_env 3600) (fresh sample_client)))
           (token_body "tok" (PInt 3600))
           [("access_token", PStr "tok"); ("expires_in", PInt 3600)] 3600).
  - lazy. reflexivity.
  - reflexivity.
  - reflexivity.
  - reflexivity.
  - reflexivity.
  - by vm_compute.
Defined.

(** X25: when a credential is held whose expiry is more than five
    minutes after the clock reading, [access_token] returns the stored
    token and contacts nobody; the identity provider is called exactly
    when no credential is held (no truthy token, or no expiry) or the
    datetime [expiry - 5 min] exists and the clock reading is at or past
    it; a read adds nothing to the trace or that one POST. *)
Theorem access_token_refresh_policy (env : Env) (s : St) :
  let now := clock env (ticks s) in
  (∀ expiry, truthy (_access_token (self s)) = true →
     _token_expiry (self s) = Some expiry →
     micros now + SKEW < micros expiry →
     access_token env s
     = (Ok (_access_token (self s)), mkSt (self s) (S (ticks s)) (trace s)))
  ∧ (trace (snd (access_token env s))
     = trace s ++ [EvPost (token_request (self s))]
     ↔ truthy (_access_token (self s)) = false
       ∨ _token_expiry (self s) = None
       ∨ ∃ expiry limit, _token_expiry (self s) = Some expiry
           ∧ dt_sub expiry SKEW = Ok limit ∧ micros limit ≤ micros now)
  ∧ (trace (snd (access_token env s)) = trace s
     ∨ trace (snd (access_token env s))
       = trace s ++ [EvPost (token_request (self s))]).
Proof.
  intros now. split; [|split; [|apply access_token_trace]].
  - intros expiry Htok Hexp Hlt.
    rewrite access_token_unfold, is_token_expired_unfold, Hexp, Htok. simpl.
    pose proof (micros_bounds now). pose proof (micros_bounds expiry).
    destruct (datetime_of_in_range (micros expiry - SKEW)) as (limit & Hl & Hm).
    { unfold SKEW in *. fold now in Hlt. lia. }
    unfold dt_sub. rewrite Hl.
    fold now. replace (micros limit <=? micros now) with false; [reflexivity|].
    symmetry. apply Z.leb_gt. lia.
  - rewrite access_token_unfold, is_token_expired_unfold.
    destruct (_token_expiry (self s)) as [expiry|] eqn:Hexp.
    2:{ pose proof (refresh_token_trace env s) as Ht.
        destruct (_refresh_token env s) as [[[]|e] s2]; simpl in *;
          rewrite Ht; split; auto. }
    destruct (truthy (_access_token (self s))) eqn:Htok.
    2:{ pose proof (refresh_token_trace env s) as Ht.
        destruct (_refresh_token env s) as [[[]|e] s2]; simpl in *;
          rewrite Ht; split; auto. }
    simpl. destruct (dt_sub expiry SKEW) as [limit|e] eqn:Hsub.
    + fold now. destruct (micros limit <=? micros now) eqn:Hle.
      * pose proof (refresh_token_trace env
                      (mkSt (self s) (S (ticks s)) (trace s))) as Ht.
        destruct (_refresh_token env _) as [[[]|e] s2]; simpl in *;
          rewrite Ht; (split; [intros _|reflexivity]);
          right; right; exists expiry, limit;
          (split; [reflexivity|split; [exact Hsub|by apply Z.leb_le]]).
      * simpl. split.
        -- intros H. symmetry in H. by apply app_singleton_ne in H.
        -- intros [H|[H|(e' & l' & He & Hl & Hle')]]; try discriminate.
           inversion He; subst e'. rewrite Hsub in Hl. inversion Hl; subst l'.
           apply Z.leb_gt in Hle. lia.
    + simpl. split.
      * intros H. symmetry in H. by apply app_singleton_ne in H.
      * intros [H|[H|(e' & l' & He & Hl & _)]]; try discriminate.
        inversion He; subst e'. rewrite Hsub in Hl. discriminate.
Qed.

Lemma access_token_refresh_policy_witness :
  truthy (_access_token valid_client) = true
  ∧ micros sample_now + SKEW < micros sample_expiry
  ∧ access_token (sample_env []) (fresh valid_client)
    = (Ok (PStr "held"), mkSt valid_client 1 []).
Proof.
  split; [reflexivity|]. split; [reflexivity|].
  apply (proj1 (access_token_refresh_policy (sample_env []) (fresh valid_client))
           sample_expiry); reflexivity.
Defined.


(** * Further properties of the quoted path *)

Lemma quote_cons_kept (c : ascii) (s : string) :
  kept_by_quote c = true → quote (String c s) = String c (quote s).
Proof.
  intros Hc. change (quote (String c s)) with (quote_byte c +:+ quote s).
  unfold quote_byte. fold (kept_by_quote c). by rewrite Hc.
Qed.

Lemma quote_cons_escaped (c : ascii) (s : string) :
  kept_by_quote c = false →
  quote (String c s)
  = String "%" (String (hex_digit (N_of_ascii c / 16))
                  (String (hex_digit (N_of_ascii c mod 16)) (quote s))).
Proof.
  intros Hc. change (quote (String c s)) with (quote_byte c +:+ quote s).
  unfold quote_byte. fold (kept_by_quote c). by rewrite Hc.
Qed.

Lemma hex_digit_code (n : N) :
  (n < 16)%N →
  N_of_ascii (hex_digit n) = (if (n <? 10)%N then 48 + n else 55 + n)%N.
Proof.
  intros Hn. unfold hex_digit. apply N_ascii_embedding.
  destruct (n <? 10)%N; lia.
Qed.

Lemma hex_digit_inj (n m : N) :
  (n < 16)%N → (m < 16)%N → hex_digit n = hex_digit m → n = m.
Proof.
  intros Hn Hm H. apply (f_equal N_of_ascii) in H.
  rewrite !hex_digit_code in H by assumption.
  destruct (N.ltb_spec n 10), (N.ltb_spec m 10); lia.
Qed.

Lemma quote_length (s : string) : (String.length s ≤ String.length (quote s))%nat.
Proof.
  induction s as [|c s IH]; [reflexivity|].
  destruct (kept_by_quote c) eqn:Hc.
  - rewrite (quote_cons_kept c s Hc). simpl. lia.
  - rewrite (quote_cons_escaped c s Hc). simpl. lia.
Qed.

Lemma quote_inj (s t : string) : quote s = quote t → s = t.
Proof.
  revert t. induction s as [|c s IH]; intros [|d t].
  - reflexivity.
  - destruct (kept_by_quote d) eqn:Hd;
      [rewrite (quote_cons_kept d t Hd)|rewrite (quote_cons_escaped d t Hd)];
      discriminate.
  - destruct (kept_by_quote c) eqn:Hc;
      [rewrite (quote_cons_kept c s Hc)|rewrite (quote_cons_escaped c s Hc)];
      discriminate.
  - destruct (kept_by_quote c) eqn:Hc, (kept_by_quote d) eqn:Hd;
      rewrite ?(quote_cons_kept _ _ Hc), ?(quote_cons_kept _ _ Hd),
        ?(quote_cons_escaped _ _ Hc), ?(quote_cons_escaped _ _ Hd).
    + intros [= -> H]. f_equal. by apply IH.
    + intros [= -> _]. discriminate Hc.
    + intros [= <- _]. discriminate Hd.
    + intros [= Hhi Hlo H]. f_equal; [|by apply IH].
      pose proof (N_ascii_bounded c). pose proof (N_ascii_bounded d).
      apply hex_digit_inj in Hhi;
        [|apply N.Div0.div_lt_upper_bound; lia|apply N.Div0.div_lt_upper_bound; lia].
      apply hex_digit_inj in Hlo; [|apply N.mod_lt; lia|apply N.mod_lt; lia].
      rewrite <- (ascii_N_embedding c), <- (ascii_N_embedding d). f_equal.
      rewrite (N.div_mod (N_of_ascii c) 16), (N.div_mod (N_of_ascii d) 16) by lia.
      by rewrite Hhi, Hlo.
Qed.

(** X13: whatever the path, every request of [get_file_by_path] is a GET
    of the account's [drive/root:] URL followed by an encoded path made
    of letters, digits, [_ . - ~], slashes and percent escapes only: no
    space, quote, [#] or [?] of the path reaches the URL. *)
Theorem get_file_by_path_url_safe (env : Env) (path : string) (s : St) :
  targets env (get_file_by_path env path) s
    (GRAPH_URL +:+ "/users/" +:+ user_email (self s) +:+ "/drive/root:"
     +:+ quote path)
  ∧ string_forall url_safe (quote path) = true
  ∧ (String.length path ≤ String.length (quote path))%nat.
Proof.
  split; [apply get_file_by_path_targets|].
  split; [apply quote_safe|apply quote_length].
Qed.

(** X14: two different paths are never sent to the same URL by
    [get_file_by_path]: the encoding of the path loses nothing. *)
Theorem path_url_injective (c : OneDriveClient) (path1 path2 : string) :
  path1 ≠ path2 → path_url c path1 ≠ path_url c path2.
Proof.
  intros Hne H. apply Hne. unfold path_url in H.
  do 4 apply String.app_inj in H. by apply quote_inj.
Qed.

Lemma path_url_injective_witness :
  path_url sample_client "/a b" ≠ path_url sample_client "/a%20b".
Proof. apply path_url_injective. discriminate. Defined.

(** X15: the encoding leaves a path as it is exactly when the path holds
    nothing but letters, digits, [_ . - ~] and slashes.  A path that is
    already percent-escaped is therefore escaped once more. *)
Theorem quote_fixes_kept_strings (s : string) :
  quote s = s ↔ string_forall kept_by_quote s = true.
Proof.
  induction s as [|c s IH]; [done|].
  change (string_forall kept_by_quote (String c s))
    with (kept_by_quote c && string_forall kept_by_quote s).
  destruct (kept_by_quote c) eqn:Hc.
  - rewrite (quote_cons_kept c s Hc). simpl. rewrite <- IH.
    split; [by intros [= ->]|by intros ->].
  - rewrite (quote_cons_escaped c s Hc). simpl. split; [|discriminate].
    intros [= _ H]. exfalso.
    pose proof (quote_length s) as Hlen. rewrite <- H in Hlen at 1.
    simpl in Hlen. lia.
Qed.

(** * Further properties of the file operations *)

Lemma value_field_run (r : Response) (s : St) :
  bind (json r) (λ body, py_get body "value" (PList [])) s = (value_field r, s).
Proof.
  unfold bind, json, py_get, value_field, ret, raise.
  destruct (json_body r) as [[| | | | | |entries]|]; try reflexivity.
  by destruct (assoc "value" entries).
Qed.

(** X16: once the request has succeeded, [list_files] and [search_files]
    return the [value] entry of the JSON body as it is, and the empty
    list when the body is an object without that entry; a JSON body that
    is not an object raises [AttributeError] and a body that is not JSON
    [JSONDecodeError]. *)
Theorem listing_result (env : Env) (s s' : St) (r : Response) :
  (∀ folder_id,
     _make_request env "GET" (children_endpoint (self s) folder_id) no_kwargs s
     = (Ok r, s') →
     list_files env folder_id s = (value_field r, s'))
  ∧ (∀ query,
       _make_request env "GET" (search_endpoint (self s) query) no_kwargs s
       = (Ok r, s') →
       search_files env query s = (value_field r, s'))
  ∧ (∀ entries, json_body r = Some (PDict entries) →
       assoc "value" entries = None → value_field r = Ok (PList []))
  ∧ (∀ entries v, json_body r = Some (PDict entries) →
       assoc "value" entries = Some v → value_field r = Ok v)
  ∧ (∀ items, json_body r = Some (PList items) → value_field r = Raise AttributeError)
  ∧ (json_body r = None → value_field r = Raise JSONDecodeError).
Proof.
  split; [|split; [|split; [|split; [|split]]]].
  - intros folder_id H. unfold list_files, bind at 1, get_self.
    unfold bind at 1. fold (children_endpoint (self s) folder_id).
    rewrite H. apply value_field_run.
  - intros query H. unfold search_files, bind at 1, get_self.
    unfold bind at 1. fold (search_endpoint (self s) query).
    rewrite H. apply value_field_run.
  - intros entries Hj Hv. unfold value_field. by rewrite Hj, Hv.
  - intros entries v Hj Hv. unfold value_field. by rewrite Hj, Hv.
  - intros items Hj. unfold value_field. by rewrite Hj.
  - intros Hj. unfold value_field. by rewrite Hj.
Qed.

Lemma listing_result_witness :
  list_files (sample_env []) None (fresh valid_client)
  = (Ok (PList []),
     snd (_make_request (sample_env []) "GET"
            (children_endpoint valid_client None) no_kwargs (fresh valid_client))).
Proof.
  apply (proj1 (listing_result (sample_env []) (fresh valid_client) _ (answer 200))).
  lazy. reflexivity.
Defined.

(** X17: an exception of the request (an [HTTPError] for a 404, a
    transport failure, a failed refresh) comes out of each of the five
    file operations as it is: none of them catches it or returns a
    default in its place. *)
Theorem operations_propagate_errors (env : Env) (s s' : St) (e : exn) :
  (∀ folder_id,
     _make_request env "GET" (children_endpoint (self s) folder_id) no_kwargs s
     = (Raise e, s') →
     list_files env folder_id s = (Raise e, s'))
  ∧ (∀ file_id,
       _make_request env "GET" (item_endpoint (self s) file_id) no_kwargs s
       = (Raise e, s') →
       get_file_metadata env file_id s = (Raise e, s'))
  ∧ (∀ file_id,
       _make_request env "GET" (content_endpoint (self s) file_id) follow_redirects s
       = (Raise e, s') →
       download_file env file_id s = (Raise e, s'))
  ∧ (∀ query,
       _make_request env "GET" (search_endpoint (self s) query) no_kwargs s
       = (Raise e, s') →
       search_files env query s = (Raise e, s'))
  ∧ (∀ path,
       _make_request env "GET"
         ("/users/" +:+ user_email (self s) +:+ "/drive/root:" +:+ quote path)
         no_kwargs s = (Raise e, s') →
       get_file_by_path env path s = (Raise e, s')).
Proof.
  split; [|split; [|split; [|split]]]; intros arg H.
  - unfold list_files, bind at 1, get_self. unfold bind at 1.
    fold (children_endpoint (self s) arg). by rewrite H.
  - unfold get_file_metadata, bind at 1, get_self. unfold bind at 1.
    fold (item_endpoint (self s) arg). by rewrite H.
  - unfold download_file, bind at 1, get_self. unfold bind at 1.
    fold (content_endpoint (self s) arg). fold follow_redirects. by rewrite H.
  - unfold search_files, bind at 1, get_self. unfold bind at 1.
    fold (search_endpoint (self s) arg). by rewrite H.
  - unfold get_file_by_path, bind at 1, get_self. unfold bind at 1. by rewrite H.
Qed.

Lemma operations_propagate_errors_witness :
  get_file_metadata (sample_env [404]) "item-1" (fresh valid_client)
  = (Raise (HTTPError (answer 404)),
     snd (_make_request (sample_env [404]) "GET"
            (item_endpoint valid_client "item-1") no_kwargs (fresh valid_client))).
Proof.
  apply (proj1 (proj2 (operations_propagate_errors (sample_env [404])
                         (fresh valid_client) _ (HTTPError (answer 404))))).
  lazy. reflexivity.
Defined.

(** X18: [download_file] returns the content of the final response
    without decoding it, and each of its requests, the retry included,
    carries [allow_redirects=True]: unlike the caller's headers, the
    transport options survive the retry. *)
Theorem download_file_content (env : Env) (file_id : string) (s : St) :
  Forall (λ q, req_options q = {["allow_redirects" := PBool true]})
         (requests_of (added s (snd (download_file env file_id s))))
  ∧ (∀ r s',
       _make_request env "GET" (content_endpoint (self s) file_id) follow_redirects s
       = (Ok r, s') →
       download_file env file_id s = (Ok (content r), s')).
Proof.
  split.
  - unfold download_file, bind at 1, get_self.
    rewrite bind_pure_snd by reflexivity.
    destruct (make_request_requests env "GET" (content_endpoint (self s) file_id)
                follow_redirects s) as (_ & Hall & _).
    eapply List.Forall_impl; [|exact Hall]. by intros q (_ & _ & ?).
  - intros r s' H. unfold download_file, bind at 1, get_self. unfold bind at 1.
    fold (content_endpoint (self s) file_id). fold follow_redirects. by rewrite H.
Qed.

Lemma download_file_content_witness :
  download_file plain_env "item-1" (fresh valid_client)
  = (Ok "raw bytes",
     snd (_make_request plain_env "GET" (content_endpoint valid_client "item-1")
            follow_redirects (fresh valid_client))).
Proof.
  apply (proj2 (download_file_content plain_env "item-1" (fresh valid_client))
           (mkResponse 200 "raw bytes" None)).
  lazy. reflexivity.
Defined.

Lemma string_app_assoc (a b c : string) : (a +:+ b) +:+ c = a +:+ b +:+ c.
Proof.
  induction a as [|x a IH]; [reflexivity|].
  change (String x ((a +:+ b) +:+ c) = String x (a +:+ b +:+ c)). by rewrite IH.
Qed.

(** X19: [get_file_metadata] requests [/users/<email>/drive/items/<id>]
    and [download_file] the same URL followed by [/content], both with
    GET and with the id inserted as given, the empty id included. *)
Theorem item_operations_endpoints (env : Env) (file_id : string) (s : St) :
  targets env (get_file_metadata env file_id) s
    (GRAPH_URL +:+ "/users/" +:+ user_email (self s) +:+ "/drive/items/" +:+ file_id)
  ∧ targets env (download_file env file_id) s
      ((GRAPH_URL +:+ "/users/" +:+ user_email (self s) +:+ "/drive/items/"
        +:+ file_id) +:+ "/content").
Proof.
  split; [apply get_file_metadata_targets|].
  pose proof (download_file_targets env file_id s) as H.
  by rewrite !string_app_assoc.
Qed.

Lemma list_files_state (env : Env) (folder_id : option string) (s : St) :
  snd (list_files env folder_id s)
  = snd (_make_request env "GET" (children_endpoint (self s) folder_id) no_kwargs s).
Proof.
  change (list_files env folder_id s)
    with (bind (_make_request env "GET" (children_endpoint (self s) folder_id)
                  no_kwargs)
               (λ response, bind (json response)
                                 (λ body, py_get body "value" (PList []))) s).
  apply bind_pure_snd. intros. apply json_get_pure.
Qed.

Lemma search_files_state (env : Env) (query : string) (s : St) :
  snd (search_files env query s)
  = snd (_make_request env "GET" (search_endpoint (self s) query) no_kwargs s).
Proof.
  change (search_files env query s)
    with (bind (_make_request env "GET" (search_endpoint (self s) query) no_kwargs)
               (λ response, bind (json response)
                                 (λ body, py_get body "value" (PList []))) s).
  apply bind_pure_snd. intros. apply json_get_pure.
Qed.

(** X20: a listing is one page: [list_files] and [search_files] send at
    most two requests in a call, the second being the retry of a 401,
    and both go to the same URL.  Nothing in the body of a response
    makes them ask for more. *)
Theorem listing_is_one_page (env : Env) (s : St) :
  (∀ folder_id,
     let reqs := requests_of (added s (snd (list_files env folder_id s))) in
     (length reqs ≤ 2)%nat
     ∧ Forall (λ q, req_url q = GRAPH_URL +:+ children_endpoint (self s) folder_id) reqs)
  ∧ (∀ query,
       let reqs := requests_of (added s (snd (search_files env query s))) in
       (length reqs ≤ 2)%nat
       ∧ Forall (λ q, req_url q = GRAPH_URL +:+ search_endpoint (self s) query) reqs).
Proof.
  split; intros arg reqs; subst reqs.
  - rewrite list_files_state.
    destruct (make_request_requests env "GET" (children_endpoint (self s) arg)
                no_kwargs s) as (Hlen & Hall & _).
    split; [exact Hlen|]. eapply List.Forall_impl; [|exact Hall].
    by intros q (_ & ? & _).
  - rewrite search_files_state.
    destruct (make_request_requests env "GET" (search_endpoint (self s) arg)
                no_kwargs s) as (Hlen & Hall & _).
    split; [exact Hlen|]. eapply List.Forall_impl; [|exact Hall].
    by intros q (_ & ? & _).
Qed.

(** * Properties of the script *)

Lemma print_items_all (line : pyval → result string) (items : list pyval)
    (lines out : list string) :
  Forall2 (λ item text, line item = Ok text) items lines →
  print_items line items out = (Ok tt, out ++ lines).
Proof.
  intros H. revert out. induction H as [|item text items lines Hline _ IH];
    intros out; simpl.
  - by rewrite app_nil_r.
  - rewrite Hline, IH, <- app_assoc. reflexivity.
Qed.

Lemma print_items_stop (line : pyval → result string) (good rest : list pyval)
    (bad : pyval) (lines out : list string) (e : exn) :
  Forall2 (λ item text, line item = Ok text) good lines →
  line bad = Raise e →
  print_items line (good ++ bad :: rest) out = (Raise e, out ++ lines).
Proof.
  intros H Hbad. revert out. induction H as [|item text items lines Hline _ IH];
    intros out; simpl.
  - by rewrite Hbad, app_nil_r.
  - rewrite Hline, IH, <- app_assoc. reflexivity.
Qed.

Lemma print_items_extends (line : pyval → result string) (items : list pyval)
    (out : list string) :
  ∃ more, snd (print_items line items out) = out ++ more.
Proof.
  revert out. induction items as [|item items IH]; intros out; simpl.
  - exists []. by rewrite app_nil_r.
  - destruct (line item) as [text|e].
    + destruct (IH (out ++ [text])) as (more & ->).
      exists (text :: more). by rewrite <- app_assoc.
    + exists []. by rewrite app_nil_r.
Qed.

(** X21: when one of [TENANT_ID], [CLIENT_ID], [CLIENT_SECRET],
    [USER_EMAIL] is not set, the script raises [KeyError] for the first
    of them, in that order, that is missing; it has then printed nothing
    and contacted nobody. *)
Theorem main_missing_variable (env : Env) (environ : gmap string string)
    (key : string) :
  List.find (unset environ) VARIABLES = Some key →
  main env environ = mkRun (Raise (KeyError key)) [] [].
Proof.
  unfold main, getenv, VARIABLES, unset. simpl.
  destruct (environ !! "TENANT_ID"); [|by intros [= <-]].
  destruct (environ !! "CLIENT_ID"); [|by intros [= <-]].
  destruct (environ !! "CLIENT_SECRET"); [|by intros [= <-]].
  destruct (environ !! "USER_EMAIL"); [discriminate|by intros [= <-]].
Qed.

Lemma main_missing_variable_witness :
  main (sample_env []) tenant_only = mkRun (Raise (KeyError "CLIENT_ID")) [] [].
Proof.
  apply (main_missing_variable (sample_env []) tenant_only "CLIENT_ID").
  reflexivity.
Defined.

(** X22: with the four variables set, the script builds its client from
    them and prints [Files in root:] before anything else, whatever
    follows; when the root listing raises, that line is all it has
    printed, the exception ends the script and the search is never
    requested. *)
Theorem main_prints_header_first (env : Env) (environ : gmap string string)
    (tenant client secret email : string) :
  environ !! "TENANT_ID" = Some tenant →
  environ !! "CLIENT_ID" = Some client →
  environ !! "CLIENT_SECRET" = Some secret →
  environ !! "USER_EMAIL" = Some email →
  let c := __init__ tenant client secret email in
  (∃ more, printed (main env environ) = "Files in root:" :: more)
  ∧ (∀ e s1, list_files env None (fresh c) = (Raise e, s1) →
       main env environ = mkRun (Raise e) (trace s1) ["Files in root:"]
       ∧ Forall (λ q, req_url q = GRAPH_URL +:+ children_endpoint c None)
                (requests_of (trace s1))).
Proof.
  intros Ht Hc Hs He c. unfold main, getenv. rewrite Ht, Hc, Hs, He. fold c.
  split.
  - unfold main_body.
    destruct (list_files env None (fresh c)) as [[files|e] s1]; [|by eexists].
    destruct (py_iter files) as [items|e]; [|by eexists].
    destruct (print_items_extends (root_line env) items ["Files in root:"])
      as (more & Hmore).
    destruct (print_items (root_line env) items ["Files in root:"])
      as [[[]|e] out1]; simpl in Hmore; subst out1; [|by eexists].
    destruct (search_files env "report" s1) as [[found|e] s2]; [|by eexists].
    destruct (py_iter found) as [items2|e]; [|by eexists].
    destruct (print_items_extends (search_line env) items2
                (("Files in root:" :: more) ++ [SEARCH_HEADER])) as (more2 & Hmore2).
    destruct (print_items (search_line env) items2 _) as [r out3].
    simpl in Hmore2. subst out3. by eexists.
  - intros e s1 Hlist. unfold main_body. rewrite Hlist. split; [reflexivity|].
    assert (Hs1 : s1 = snd (_make_request env "GET" (children_endpoint c None)
                              no_kwargs (fresh c))).
    { pose proof (list_files_state env None (fresh c)) as Hst.
      rewrite Hlist in Hst. exact Hst. }
    destruct (make_request_requests env "GET" (children_endpoint c None)
                no_kwargs (fresh c)) as (_ & Hall & _).
    rewrite Hs1.
    change (trace ?x) with (added (fresh c) x).
    eapply List.Forall_impl; [|exact Hall]. by intros q (_ & ? & _).
Qed.

Lemma main_prints_header_first_witness :
  (∃ more, printed (main (refusing_env []) sample_environ) = "Files in root:" :: more)
  ∧ (∀ e s1, list_files (refusing_env []) None (fresh sample_client) = (Raise e, s1) →
       main (refusing_env []) sample_environ
       = mkRun (Raise e) (trace s1) ["Files in root:"]
       ∧ Forall (λ q, req_url q = GRAPH_URL +:+ children_endpoint sample_client None)
                (requests_of (trace s1))).
Proof.
  apply (main_prints_header_first (refusing_env []) sample_environ
           "contoso" "app-id" "app-secret" "user@contoso.com"); reflexivity.
Defined.

(** X23: when the root listing and the search both return lists whose
    items all have a line (dicts with a [name]), the script prints the
    header, one line per listed item, the search header and one line per
    found item, in that order, and ends normally; the search runs on the
    client as the listing left it. *)
Theorem main_prints_both_listings (env : Env) (c : OneDriveClient) (s1 s2 : St)
    (items found : list pyval) (lines lines2 : list string) :
  list_files env None (fresh c) = (Ok (PList items), s1) →
  Forall2 (λ item text, root_line env item = Ok text) items lines →
  search_files env "report" s1 = (Ok (PList found), s2) →
  Forall2 (λ item text, search_line env item = Ok text) found lines2 →
  main_body env c
  = mkRun (Ok tt) (trace s2)
          ("Files in root:" :: lines ++ SEARCH_HEADER :: lines2).
Proof.
  intros Hlist Hlines Hsearch Hlines2. unfold main_body.
  rewrite Hlist. simpl. rewrite (print_items_all _ _ _ _ Hlines).
  rewrite Hsearch. simpl. rewrite (print_items_all _ _ _ _ Hlines2).
  f_equal. simpl. by rewrite <- app_assoc.
Qed.

Lemma main_prints_both_listings_witness :
  ∃ s2,
    main_body drive_env sample_client
    = mkRun (Ok tt) (trace s2)
            ("Files in root:"
             :: ["  " +:+ FOLDER_MARK +:+ " Documents";
                 "  " +:+ FILE_MARK +:+ " notes.txt"]
             ++ SEARCH_HEADER :: []).
Proof.
  eexists.
  eapply (main_prints_both_listings drive_env sample_client _ _
            [PDict [("name", PStr "Documents"); ("folder", PDict [])];
             PDict [("name", PStr "notes.txt")]] []).
  - lazy. reflexivity.
  - repeat constructor.
  - lazy. reflexivity.
  - constructor.
Defined.

(** X24: an item of the root listing that has no line (a dict without a
    [name] raises [KeyError], an item that is no dict [TypeError]) ends
    the script with that exception: the lines of the items before it
    have been printed, the search header has not, and the search is not
    requested. *)
Theorem main_stops_at_bad_item (env : Env) (c : OneDriveClient) (s1 : St)
    (good rest : list pyval) (bad : pyval) (lines : list string) (e : exn) :
  list_files env None (fresh c) = (Ok (PList (good ++ bad :: rest)), s1) →
  Forall2 (λ item text, root_line env item = Ok text) good lines →
  root_line env bad = Raise e →
  main_body env c = mkRun (Raise e) (trace s1) ("Files in root:" :: lines).
Proof.
  intros Hlist Hlines Hbad. unfold main_body. rewrite Hlist. simpl.
  by rewrite (print_items_stop _ _ _ _ _ _ _ Hlines Hbad).
Qed.

Lemma main_stops_at_bad_item_witness :
  ∃ s1,
    main_body nameless_env sample_client
    = mkRun (Raise (KeyError "name")) (trace s1)
            ["Files in root:"; "  " +:+ FILE_MARK +:+ " notes.txt"].
Proof.
  eexists.
  eapply (main_stops_at_bad_item nameless_env sample_client _
            [PDict [("name", PStr "notes.txt")]]
            [PDict [("name", PStr "later.txt")]]
            (PDict [("id", PStr "42")])).
  - lazy. reflexivity.
  - repeat constructor.
  - reflexivity.
Defined.
